(** * ModernCLITool: the core functions and the commands of [cli.py]

    A shallow embedding of [process_file_core], [list_items_core] and of the
    [process] and [list] commands, over a tree-shaped file system, together
    with the properties of the specification that concern them.

    Python values are embedded as follows.
    - [str] is a sequence of Unicode code points ([list N]); [len] is
      [length], [==] is [PyStr.eqb], [<] on strings is the lexicographic
      order on code points.
    - A [Path] is its sequence of components below the root of the file
      system, [".."] included when the program builds one.
    - The file system is a tree of nodes; the functions that touch it run in a
      state-and-exception monad over a [world] that also records the
      observable events (prompt, writes, failure report).
    - Console output goes through the markup of [rich]: a text is parsed for
      tags before it is shown, and a closing tag that closes nothing raises
      [MarkupError].  The parser is written out in [Rich].
    - What the interpreter, the libraries and the operating system decide
      (the Unicode case tables above Latin-1, the final-sigma rule,
      [fnmatch], the metadata of a freshly written file, the longest name
      the file system takes, [str] and [repr] of a path, the range of
      [datetime], the style names of [rich]) enters as Section variables. *)

From Stdlib Require Import Ascii String.
From Stdlib Require Import List NArith ZArith Bool Lia.
From Stdlib Require Import Sorting.Sorted Sorting.Permutation.
Import ListNotations.

Set Implicit Arguments.

(** ** Python strings *)

Module PyStr.

Definition str : Type := list N.

(** A string literal of the source, read as code points (ASCII only). *)
Definition lit (s : string) : str :=
  map N_of_ascii (list_ascii_of_string s).

Fixpoint eqb (a b : str) : bool :=
  match a, b with
  | [], [] => true
  | x :: a', y :: b' => N.eqb x y && eqb a' b'
  | _, _ => false
  end.

(** The order of [str.__lt__]: lexicographic on code points, a proper
    prefix first. *)
Fixpoint compare (a b : str) : comparison :=
  match a, b with
  | [], [] => Eq
  | [], _ :: _ => Lt
  | _ :: _, [] => Gt
  | x :: a', y :: b' =>
      match N.compare x y with
      | Eq => compare a' b'
      | c => c
      end
  end.

(** [c in s] for a one-character [c]. *)
Definition mem (c : N) (s : str) : bool := existsb (N.eqb c) s.

(** [sub in s]: [sub] occurs as a contiguous slice of [s]. *)
Fixpoint is_prefix (p s : str) : bool :=
  match p, s with
  | [], _ => true
  | x :: p', y :: s' => N.eqb x y && is_prefix p' s'
  | _ :: _, [] => false
  end.

Fixpoint contains (sub s : str) : bool :=
  is_prefix sub s ||
  match s with
  | [] => false
  | _ :: s' => contains sub s'
  end.

(** [s.split(sep)] for a one-character separator: never empty. *)
Fixpoint split (sep : N) (s : str) : list str :=
  match s with
  | [] => [[]]
  | c :: s' =>
      if N.eqb c sep then [] :: split sep s'
      else match split sep s' with
           | [] => [[c]]
           | w :: ws => (c :: w) :: ws
           end
  end.

(** [s.rfind(c)]: the index of the last occurrence, [None] for Python's -1. *)
Fixpoint rfind (c : N) (s : str) : option nat :=
  match s with
  | [] => None
  | x :: s' =>
      match rfind c s' with
      | Some i => Some (S i)
      | None => if N.eqb x c then Some 0 else None
      end
  end.

(** [c.isascii()]. *)
Definition is_ascii (c : N) : Prop := (c < 128)%N.

Definition slash : N := 47.
Definition dot : N := 46.

(** [c.isspace()]: the white space of the Unicode database. *)
Definition is_space (c : N) : bool :=
  ((9 <=? c) && (c <=? 13) || (28 <=? c) && (c <=? 32) || (c =? 133) || (c =? 160)
   || (c =? 5760) || (8192 <=? c) && (c <=? 8202) || (c =? 8232) || (c =? 8233)
   || (c =? 8239) || (c =? 8287) || (c =? 12288))%N.

Fixpoint lstrip (s : str) : str :=
  match s with
  | c :: s' => if is_space c then lstrip s' else s
  | [] => []
  end.

(** [s.strip()]. *)
Definition strip (s : str) : str := rev (lstrip (rev (lstrip s))).

(** [s.partition(sep)] for a one-character separator: the text before the
    first separator, and the text after it when there is one. *)
Fixpoint partition (sep : N) (s : str) : str * option str :=
  match s with
  | [] => ([], None)
  | c :: s' =>
      if N.eqb c sep then ([], Some s')
      else (c :: fst (partition sep s'), snd (partition sep s'))
  end.

End PyStr.

Import PyStr.

(** ** Case mapping of the Latin-1 code points

    [str.upper] and [str.lower] map every code point through the full case
    mapping of the Unicode database ([UnicodeData.txt] and the
    unconditional rules of [SpecialCasing.txt]).  The program does not
    contain these tables; for the code points below U+0100 they are written
    out here. *)

Module Latin1.

(** Full uppercase mapping: a-z, the Latin-1 lowercase letters except the
    division sign, the micro sign (to GREEK CAPITAL LETTER MU), y with
    diaeresis (to U+0178) and sharp s, which becomes the two letters SS. *)
Definition toupper_full (c : N) : list N :=
  if (97 <=? c)%N && (c <=? 122)%N then [(c - 32)%N]
  else if (c =? 181)%N then [924%N]
  else if (c =? 223)%N then [83%N; 83%N]
  else if (224 <=? c)%N && (c <=? 254)%N && negb (c =? 247)%N then [(c - 32)%N]
  else if (c =? 255)%N then [376%N]
  else [c].

(** Full lowercase mapping: A-Z and the Latin-1 capital letters except the
    multiplication sign. *)
Definition tolower_full (c : N) : list N :=
  if (65 <=? c)%N && (c <=? 90)%N then [(c + 32)%N]
  else if (192 <=? c)%N && (c <=? 222)%N && negb (c =? 215)%N then [(c + 32)%N]
  else [c].

End Latin1.

(** ** Paths ([pathlib.PurePath]) *)

Module Pathlib.

Definition Path : Type := list str.

(** [parse_parts] on one relative string: split on the separator and drop
    the empty and the ["."] components. *)
Definition parse_parts (s : str) : list str :=
  filter (fun c => negb (eqb c []) && negb (eqb c (lit "."))) (split slash s).

Definition is_absolute (s : str) : bool :=
  match s with
  | c :: _ => N.eqb c slash
  | [] => false
  end.

(** [self / s]: an absolute right operand replaces the left one. *)
Definition joinpath (p : Path) (s : str) : Path :=
  if is_absolute s then parse_parts s else p ++ parse_parts s.

(** [path.name]: the final component, empty when there is none. *)
Definition name (p : Path) : str := last p [].

(** The index test shared by [suffix] and [stem]:
    [0 < i < len(name) - 1] for [i = name.rfind('.')]. *)
Definition suffix_index (nm : str) : option nat :=
  match rfind dot nm with
  | Some i => if (0 <? i) && (i <? length nm - 1) then Some i else None
  | None => None
  end.

Definition suffix (p : Path) : str :=
  match suffix_index (name p) with
  | Some i => skipn i (name p)
  | None => []
  end.

Definition stem (p : Path) : str :=
  match suffix_index (name p) with
  | Some i => firstn i (name p)
  | None => name p
  end.

End Pathlib.

Import Pathlib.

(** ** The file system *)

Module FS.

(** A regular file carries the metadata [stat] reports and the text
    [read_text] returns; a directory its metadata and its entries in the
    order a scan yields them.  A file of the tree can be read and decoded
    and a directory searched: symbolic links, permissions, special files
    and files that are not text are outside the model, and so are paths
    whose text is longer than the operating system takes ([PATH_MAX]). *)
#[local] Set Warnings "-register-all".
Inductive node : Type :=
| File (st_size : N) (st_mtime : Z) (text : str)
| Dir (st_size : N) (st_mtime : Z) (entries : list (str * node)).

Definition is_dir_node (n : node) : bool :=
  match n with Dir _ _ _ => true | File _ _ _ => false end.

Definition entries_of (n : node) : list (str * node) :=
  match n with Dir _ _ es => es | File _ _ _ => [] end.

Fixpoint lookup_entry (nm : str) (es : list (str * node)) : option node :=
  match es with
  | [] => None
  | (k, n) :: es' => if eqb k nm then Some n else lookup_entry nm es'
  end.

(** Descent along a path without [".."]. *)
Fixpoint get (n : node) (p : list str) : option node :=
  match p with
  | [] => Some n
  | c :: p' =>
      match lookup_entry c (entries_of n) with
      | Some m => get m p'
      | None => None
      end
  end.

(** The error numbers of the model.  A path lookup in the tree fails with
    [ENOENT], a component is missing, or with [ENOTDIR], a component that
    must be a directory is a regular file; [EISDIR] is the error of opening
    a directory as a file and [ENAMETOOLONG] that of a name the file system
    does not take. *)
Inductive errno : Type := ENOENT | ENOTDIR | EISDIR | ENAMETOOLONG.

(** The path without [".."] that [p] denotes when followed from [acc];
    every component is looked up in an existing directory, the parent of
    the root is the root. *)
Fixpoint realpath (root : node) (acc : list str) (p : Path) : errno + list str :=
  match p with
  | [] => inr acc
  | c :: p' =>
      match get root acc with
      | Some (Dir _ _ es) =>
          if eqb c (lit "..") then realpath root (removelast acc) p'
          else match lookup_entry c es with
               | Some _ => realpath root (acc ++ [c]) p'
               | None => inl ENOENT
               end
      | Some (File _ _ _) => inl ENOTDIR
      | None => inl ENOENT
      end
  end.

Definition resolve (root : node) (p : Path) : option node :=
  match realpath root [] p with
  | inr rp => get root rp
  | inl _ => None
  end.

(** Whether the tree has the path, and has a directory there.  These are
    the facts about the file system; the methods [exists], [is_dir] and
    [is_file] of [pathlib.Path], which call [stat] and raise some of its
    errors again, are [path_exists], [path_is_dir] and [path_is_file] of
    the program below. *)
Definition exists_ (root : node) (p : Path) : bool :=
  match resolve root p with Some _ => true | None => false end.

Definition is_dir (root : node) (p : Path) : bool :=
  match resolve root p with Some (Dir _ _ _) => true | _ => false end.

(** [os.scandir]: the entries of a directory, none for anything else. *)
Definition scandir (root : node) (p : Path) : list (str * node) :=
  match resolve root p with
  | Some n => entries_of n
  | None => []
  end.

(** Replace the first entry called [nm], or add it at the end. *)
Fixpoint upsert (nm : str) (new : node) (es : list (str * node)) : list (str * node) :=
  match es with
  | [] => [(nm, new)]
  | (k, n) :: es' =>
      if eqb k nm then (k, new) :: es' else (k, n) :: upsert nm new es'
  end.

(** Apply [f] to the node at a path without [".."]. *)
Fixpoint modify (n : node) (rp : list str) (f : node -> node) : node :=
  match rp with
  | [] => f n
  | c :: rp' =>
      match n with
      | Dir sz mt es =>
          match lookup_entry c es with
          | Some m => Dir sz mt (upsert c (modify m rp' f) es)
          | None => n
          end
      | File _ _ _ => n
      end
  end.

(** A directory after an entry was put into it at time [mt]. *)
Definition with_entry (mt : Z) (nm : str) (new : node) (d : node) : node :=
  match d with
  | Dir sz _ es => Dir sz mt (upsert nm new es)
  | File _ _ _ => d
  end.

(** The time stamp of a node. *)
Definition mtime (n : node) : Z :=
  match n with File _ mt _ => mt | Dir _ mt _ => mt end.

(** What a lookup finds: nothing, a regular file, or a directory. *)
Definition node_kind (o : option node) : option bool :=
  match o with
  | Some n => Some (is_dir_node n)
  | None => None
  end.

End FS.

Import FS.

(** ** Numbers as text ([str(n)], [format(n, ",")]) *)

Module PyFormat.

Fixpoint uint_digits (u : Decimal.uint) : str :=
  match u with
  | Decimal.Nil => []
  | Decimal.D0 u' => 48%N :: uint_digits u'
  | Decimal.D1 u' => 49%N :: uint_digits u'
  | Decimal.D2 u' => 50%N :: uint_digits u'
  | Decimal.D3 u' => 51%N :: uint_digits u'
  | Decimal.D4 u' => 52%N :: uint_digits u'
  | Decimal.D5 u' => 53%N :: uint_digits u'
  | Decimal.D6 u' => 54%N :: uint_digits u'
  | Decimal.D7 u' => 55%N :: uint_digits u'
  | Decimal.D8 u' => 56%N :: uint_digits u'
  | Decimal.D9 u' => 57%N :: uint_digits u'
  end.

(** [str(n)] for a natural number: its decimal digits. *)
Definition decimal (n : N) : str := uint_digits (N.to_uint n).

Definition comma : N := 44.

(** The digits from the last to the first, a comma after every third one
    that is followed by a further digit. *)
Fixpoint group3 (rev_digits : str) : str :=
  match rev_digits with
  | a :: b :: c :: (_ :: _) as rest => a :: b :: c :: comma :: group3 rest
  | _ => rev_digits
  end.

(** [f"{n:,}"]: the decimal digits in groups of three, from the right. *)
Definition format_thousands (n : N) : str := rev (group3 (rev (decimal n))).

Definition is_digit (c : N) : Prop := (48 <= c <= 57)%N.

End PyFormat.

Import PyFormat.

(** ** [json.dumps(value, indent=2)]

    The values the program serializes, and the text the encoder of the
    [json] module produces for them with its defaults ([ensure_ascii], the
    separators [","] and [": "] that go with an indent). *)

Module Json.

#[local] Set Warnings "-register-all".
Inductive json : Type :=
| JInt (n : N)
| JString (s : str)
| JArray (items : list json)
| JObject (fields : list (str * json)).

Definition hexdigit (d : N) : N :=
  if (d <? 10)%N then (48 + d)%N else (87 + d)%N.

(** ['{0:04x}'.format(n)] for [n < 0x10000]. *)
Definition hex4 (n : N) : str :=
  [ hexdigit ((n / 4096) mod 16); hexdigit ((n / 256) mod 16);
    hexdigit ((n / 16) mod 16); hexdigit (n mod 16) ]%N.

Definition backslash_u (n : N) : str := 92%N :: 117%N :: hex4 n.

(** The replacement of one character by [encode_basestring_ascii]: the
    short escapes, the printable ASCII characters as they are, every other
    character as one or, above U+FFFF, two [\uXXXX] escapes. *)
Definition escape_char (c : N) : str :=
  if (c =? 34)%N then [92; 34]%N
  else if (c =? 92)%N then [92; 92]%N
  else if (c =? 10)%N then [92; 110]%N
  else if (c =? 13)%N then [92; 114]%N
  else if (c =? 9)%N then [92; 116]%N
  else if (c =? 8)%N then [92; 98]%N
  else if (c =? 12)%N then [92; 102]%N
  else if (32 <=? c)%N && (c <=? 126)%N then [c]
  else if (c <? 65536)%N then backslash_u c
  else
    let n := (c - 65536)%N in
    backslash_u (N.lor 55296 (N.land (N.shiftr n 10) 1023)) ++
    backslash_u (N.lor 56320 (N.land n 1023)).

Definition encode_basestring_ascii (s : str) : str :=
  34%N :: flat_map escape_char s ++ [34%N].

Fixpoint join (sep : str) (parts : list str) : str :=
  match parts with
  | [] => []
  | [p] => p
  | p :: ps => p ++ sep ++ join sep ps
  end.

(** A line break and the indent of a nesting level. *)
Definition newline_indent (level : nat) : str := 10%N :: repeat 32%N (2 * level).

Fixpoint iterencode (level : nat) (v : json) : str :=
  match v with
  | JInt n => decimal n
  | JString s => encode_basestring_ascii s
  | JArray [] => lit "[]"
  | JArray items =>
      lit "[" ++ newline_indent (S level) ++
      join (lit "," ++ newline_indent (S level))
           (map (iterencode (S level)) items) ++
      newline_indent level ++ lit "]"
  | JObject [] => lit "{}"
  | JObject fields =>
      lit "{" ++ newline_indent (S level) ++
      join (lit "," ++ newline_indent (S level))
           (map (fun kv => encode_basestring_ascii (fst kv) ++ lit ": " ++
                           iterencode (S level) (snd kv)) fields) ++
      newline_indent level ++ lit "}"
  end.

Definition dumps (v : json) : str := iterencode 0 v.

(** Induction on a value with the hypothesis for every item and field. *)
Section JsonInduction.

Variable P : json -> Prop.
Hypothesis HInt : forall n, P (JInt n).
Hypothesis HString : forall s, P (JString s).
Hypothesis HArray : forall items, Forall P items -> P (JArray items).
Hypothesis HObject :
  forall fields, Forall (fun kv => P (snd kv)) fields -> P (JObject fields).

Fixpoint json_induction (v : json) : P v :=
  match v with
  | JInt n => HInt n
  | JString s => HString s
  | JArray items =>
      HArray ((fix all (l : list json) : Forall P l :=
                 match l with
                 | [] => Forall_nil P
                 | x :: l' => Forall_cons x (json_induction x) (all l')
                 end) items)
  | JObject fields =>
      HObject ((fix all (l : list (str * json)) : Forall (fun kv => P (snd kv)) l :=
                  match l with
                  | [] => Forall_nil _
                  | kv :: l' =>
                      Forall_cons (P := fun kv => P (snd kv)) kv
                                  (json_induction (snd kv)) (all l')
                  end) fields)
  end.

End JsonInduction.

(** The characters of a text that can be written anywhere: the printable
    ASCII characters and the line feed. *)
Definition plain_ascii (c : N) : Prop := c = 10%N \/ (32 <= c <= 126)%N.

End Json.

Import Json.

(** ** Console markup ([rich.markup])

    [console.print] and the text column of a progress bar take their text
    as markup: [_parse] finds the tags with the regular expression
    [RE_TAGS] (any number of backslashes, an opening bracket, one of the
    characters a-z, #, / and @, the shortest text without an opening bracket,
    a closing bracket) and [render] keeps a stack of the open tags.  Only
    what can make [render] raise is kept here: the tags, with their
    positions, and the stack. *)

Module Rich.

(** A tag: where it starts in the markup, its name, and its parameters, the
    text after the first [=], when it has any. *)
Record Tag : Type :=
  { tag_position : nat; tag_name : str; tag_parameters : option str }.

(** [tag.markup]. *)
Definition tag_markup (name : str) (parameters : option str) : str :=
  match parameters with
  | None => lit "[" ++ name ++ lit "]"
  | Some ps => lit "[" ++ name ++ lit "=" ++ ps ++ lit "]"
  end.

(** The first character of a tag: a-z, #, / or @. *)
Definition tag_start (c : N) : bool :=
  ((97 <=? c) && (c <=? 122) || (c =? 35) || (c =? 47) || (c =? 64))%N.

(** The rest of a tag: the text up to the first closing bracket, unless
    an opening bracket comes before it. *)
Fixpoint tag_text (s : str) : option str :=
  match s with
  | [] => None
  | c :: s' =>
      if (c =? 93)%N then Some []
      else if (c =? 91)%N then None
      else match tag_text s' with
           | Some t => Some (c :: t)
           | None => None
           end
  end.

(** The backslashes a text begins with. *)
Fixpoint backslashes (s : str) : nat :=
  match s with
  | c :: s' => if (c =? 92)%N then S (backslashes s') else 0
  | [] => 0
  end.

(** A match of the expression at the head of [s]: the number of
    backslashes and the text between the brackets. *)
Definition match_tag (s : str) : option (nat * str) :=
  let escapes := backslashes s in
  match skipn escapes s with
  | b :: c :: s' =>
      if (b =? 91)%N && tag_start c then
        match tag_text s' with
        | Some t => Some (escapes, c :: t)
        | None => None
        end
      else None
  | _ => None
  end.

Definition make_tag (position : nat) (text : str) : Tag :=
  {| tag_position := position;
     tag_name := fst (partition 61 text);
     tag_parameters := snd (partition 61 text) |}.

(** The tags [_parse] yields, as [finditer] finds the matches: a match is
    tried at every position from the left, and the search goes on behind a
    match ([skip] characters of it are still to pass).  An odd number of
    backslashes escapes the bracket, an even number leaves the tag, which
    then starts behind them. *)
Fixpoint parse (skip position : nat) (s : str) : list Tag :=
  match s with
  | [] => []
  | _ :: s' =>
      match skip with
      | S n => parse n (S position) s'
      | O =>
          match match_tag s with
          | Some (escapes, text) =>
              let rest := parse (escapes + S (length text)) (S position) s' in
              if Nat.even escapes then make_tag (position + escapes) text :: rest
              else rest
          | None => parse 0 (S position) s'
          end
      end
  end.

Section Render.

(** [Style.normalize]: the canonical form of a style definition, and the
    stripped lower-case text of a name that is none. *)
Variable normalize : str -> str.

(** For the parameters of a handler tag ([[@name=parameters]]): the
    message of the [MarkupError] raised when [literal_eval] does not
    evaluate them, [None] when it does. *)
Variable meta_error : str -> option str.

(** [pop_style]: the open tag of that name nearest to the top of the stack
    is taken out. *)
Fixpoint pop_style (style_name : str) (stack : list (str * option str))
  : option ((str * option str) * list (str * option str)) :=
  match stack with
  | [] => None
  | tag :: stack' =>
      if eqb (fst tag) style_name then Some (tag, stack')
      else match pop_style style_name stack' with
           | Some (found, rest) => Some (found, tag :: rest)
           | None => None
           end
  end.

(** What closing an open tag can still raise: the parameters of a handler
    tag are evaluated. *)
Definition close_error (open_tag : str * option str) : option str :=
  match fst open_tag, snd open_tag with
  | c :: _, Some (p :: ps) => if (c =? 64)%N then meta_error (p :: ps) else None
  | _, _ => None
  end.

Definition no_open_tag (tag : Tag) : str :=
  lit "closing tag '" ++ tag_markup (tag_name tag) (tag_parameters tag)
  ++ lit "' at position " ++ decimal (N.of_nat (tag_position tag))
  ++ lit " doesn't match any open tag".

Definition nothing_to_close (tag : Tag) : str :=
  lit "closing tag '[/]' at position " ++ decimal (N.of_nat (tag_position tag))
  ++ lit " has nothing to close".

(** The loop of [render] over the tags: the message of the [MarkupError]
    it raises, [None] when it gets through.  The top of the stack is the
    head of the list. *)
Fixpoint render_tags (tags : list Tag) (stack : list (str * option str)) : option str :=
  match tags with
  | [] => None
  | tag :: tags' =>
      match tag_name tag with
      | c :: closed =>
          if (c =? 47)%N then
            let popped :=
              match strip closed with
              | [] =>
                  match stack with
                  | [] => inl (nothing_to_close tag)
                  | open_tag :: stack' => inr (open_tag, stack')
                  end
              | style_name =>
                  match pop_style (normalize style_name) stack with
                  | Some found => inr found
                  | None => inl (no_open_tag tag)
                  end
              end in
            match popped with
            | inl message => Some message
            | inr (open_tag, stack') =>
                match close_error open_tag with
                | Some message => Some message
                | None => render_tags tags' stack'
                end
            end
          else render_tags tags' ((normalize (tag_name tag), tag_parameters tag) :: stack)
      | [] => render_tags tags' ((normalize (tag_name tag), tag_parameters tag) :: stack)
      end
  end.

(** [render(markup)]: a text without an opening bracket is taken as it
    is. *)
Definition render (markup : str) : option str :=
  if mem 91 markup then render_tags (parse 0 0 markup) [] else None.

End Render.

(** A text without an opening bracket and without a backslash: no match
    of a tag begins in it. *)
Definition plain (s : str) : bool :=
  forallb (fun c => negb (c =? 91)%N && negb (c =? 92)%N) s.

(** A name of small letters only, such as the colour names. *)
Definition small_letters (s : str) : bool :=
  forallb (fun c => (97 <=? c)%N && (c <=? 122)%N) s.

End Rich.


(** ** Exceptions, events and the monad of the program *)

Module Cli.

(** The exceptions of the model.  [FileNotFoundError] is the one the
    program raises itself, with its message.  An error of the operating
    system is [OSError] with its number and the path it is about; Python
    gives it the class [FileNotFoundError] for [ENOENT], [NotADirectoryError]
    for [ENOTDIR], [IsADirectoryError] for [EISDIR] and [OSError] itself for
    [ENAMETOOLONG].  [MarkupError] is the error of [rich], [Exit] is
    [typer.Exit]. *)
Inductive exn : Type :=
| FileNotFoundError (message : str)
| OSError (errno : errno) (filename : Path)
| ValueError (message : str)
| NotImplementedError
| IndexError
| AttributeError
| EOFError
| MarkupError (message : str)
| Exit (code : Z).

(** What a run leaves behind besides the file system: the call of
    [Confirm.ask], each [write_text] that was carried out, and the lines of
    the failure summary that were printed.  The other lines of the console
    are not recorded, only rendered: what they can do to the run is to
    raise [MarkupError].  Logging is not part of the trace. *)
Inductive event : Type :=
| Asked
| Wrote (p : Path) (data : str)
| Reported (file_name : str) (error : exn).

(** [answers] are the replies the user is going to type at the prompt. *)
Record world : Type :=
  World { root : node; answers : list bool; trace : list event }.

Inductive outcome (A : Type) : Type :=
| Ok (a : A)
| Raise (e : exn).
Arguments Ok {A} a.
Arguments Raise {A} e.

Definition M (A : Type) : Type := world -> outcome A * world.

Definition ret {A} (a : A) : M A := fun w => (Ok a, w).

Definition raise {A} (e : exn) : M A := fun w => (Raise e, w).

Definition bind {A B} (m : M A) (k : A -> M B) : M B :=
  fun w =>
    match m w with
    | (Ok a, w') => k a w'
    | (Raise e, w') => (Raise e, w')
    end.

(** [try: m except Exception as e: h e]. *)
Definition try_except {A} (m : M A) (h : exn -> M A) : M A :=
  fun w =>
    match m w with
    | (Ok a, w') => (Ok a, w')
    | (Raise e, w') => h e w'
    end.

Definition emit (ev : event) : M unit :=
  fun w => (Ok tt, World (root w) (answers w) (trace w ++ [ev])).

Definition ask_fs {A} (f : node -> A) : M A := fun w => (Ok (f (root w)), w).

(** A question to the file system that can raise. *)
Definition lift {A} (f : node -> outcome A) : M A := fun w => (f (root w), w).

Declare Scope py_scope.
Delimit Scope py_scope with py.
Notation "x <- m ;; k" := (bind m (fun x => k))
  (at level 100, m at next level, right associativity) : py_scope.
Notation "m ;;; k" := (bind m (fun _ => k))
  (at level 100, right associativity) : py_scope.
Local Open Scope py_scope.

(** [for x in xs: body x], stopping at the first exception. *)
Fixpoint for_each {A} (xs : list A) (body : A -> M unit) : M unit :=
  match xs with
  | [] => ret tt
  | x :: xs' => body x ;;; for_each xs' body
  end.

(** The exit status of a command run by [typer]: 0 when the function
    returns, the code of [typer.Exit], 1 for any other exception. *)
Definition exit_status {A} (r : outcome A) : Z :=
  match r with
  | Ok _ => 0%Z
  | Raise (Exit c) => c
  | Raise _ => 1%Z
  end.

(** ** The program *)

Record TransformResult : Type := {
  original_size : nat;
  processed_size : nat;
  transform : str;
  result : str
}.

Record DirectoryEntry : Type := {
  entry_name : str;
  entry_type : str;
  entry_size : N;
  entry_modified : Z
}.

Section Program.

(** The full case mappings of the Unicode database for the code points
    from U+0100 on, and the form of a capital sigma at a position of a
    string (final or not), as the interpreter has them. *)
Variable ucd_toupper_full : N -> list N.
Variable ucd_tolower_full : N -> list N.
Variable handle_capital_sigma : str -> nat -> N.

(** [fnmatch.fnmatchcase name pat], the match of one path component
    against one pattern component. *)
Variable fnmatch : str -> str -> bool.

(** The size and the modification time the operating system records for a
    file when the given text is written at the given path. *)
Variable written_stat : Path -> str -> N * Z.

(** [Path.cwd()]. *)
Variable cwd : Path.

(** Whether a name is longer than the file system takes ([NAME_MAX] bytes
    once encoded): looking it up or creating it fails with
    [ENAMETOOLONG]. *)
Variable name_too_long : str -> bool.

(** [str(path)], the text a path was given as, and [repr(s)] of a
    string. *)
Variable path_str : Path -> str.
Variable repr : str -> str.

(** [datetime.fromtimestamp(t)]: the exception it raises for a time stamp
    it cannot convert (a year after 9999, a time the platform does not
    take), [None] when it converts. *)
Variable fromtimestamp_error : Z -> option exn.

(** [Style.normalize] of [rich], and, for the parameters of a handler tag,
    the message of the [MarkupError] raised when they do not evaluate. *)
Variable style_normalize : str -> str.
Variable meta_error : str -> option str.

(** *** [str.upper] and [str.lower] *)

Definition PyUnicode_ToUpperFull (c : N) : list N :=
  if (c <? 256)%N then Latin1.toupper_full c else ucd_toupper_full c.

Definition PyUnicode_ToLowerFull (c : N) : list N :=
  if (c <? 256)%N then Latin1.tolower_full c else ucd_tolower_full c.

(** [s.upper()]: every code point is replaced by its full uppercase
    mapping, which may be several code points long. *)
Definition upper (s : str) : str := flat_map PyUnicode_ToUpperFull s.

(** U+03A3 becomes one of the two small sigmas, by its context. *)
Definition lower_ucs4 (s : str) (i : nat) (c : N) : list N :=
  if (c =? 931)%N then [handle_capital_sigma s i]
  else PyUnicode_ToLowerFull c.

Fixpoint do_lower (s : str) (i : nat) (rest : str) : str :=
  match rest with
  | [] => []
  | c :: rest' => lower_ucs4 s i c ++ do_lower s (S i) rest'
  end.

Definition lower (s : str) : str := do_lower s 0 s.

(** *** File operations of [pathlib.Path] *)

(** The error number of a lookup that fails, found as the operating system
    finds it, component by component: a name that is not there gives
    [ENAMETOOLONG] when it is too long and [ENOENT] otherwise.  [None] when
    every component is found. *)
Fixpoint lookup_errno (r : node) (acc : list str) (p : Path) : option errno :=
  match p with
  | [] => None
  | c :: p' =>
      match get r acc with
      | Some (Dir _ _ es) =>
          if eqb c (lit "..") then lookup_errno r (removelast acc) p'
          else match lookup_entry c es with
               | Some _ => lookup_errno r (acc ++ [c]) p'
               | None => Some (if name_too_long c then ENAMETOOLONG else ENOENT)
               end
      | Some (File _ _ _) => Some ENOTDIR
      | None => Some ENOENT
      end
  end.

Definition stat_errno (r : node) (p : Path) : errno :=
  match lookup_errno r [] p with
  | Some e => e
  | None => ENOENT
  end.

(** [_ignore_error]: the errors [exists], [is_dir] and [is_file] answer
    with [False]; they raise the others again. *)
Definition ignore_error (e : errno) : bool :=
  match e with
  | ENOENT | ENOTDIR => true
  | EISDIR | ENAMETOOLONG => false
  end.

(** The pattern of the three methods: [self.stat()] in a [try] whose
    handler looks at the error number. *)
Definition stat_or {A} (r : node) (p : Path) (found : node -> A) (missing : A)
  : outcome A :=
  match resolve r p with
  | Some n => Ok (found n)
  | None =>
      if ignore_error (stat_errno r p) then Ok missing
      else Raise (OSError (stat_errno r p) p)
  end.

Definition path_exists (r : node) (p : Path) : outcome bool :=
  stat_or r p (fun _ => true) false.

Definition path_is_dir (r : node) (p : Path) : outcome bool :=
  stat_or r p is_dir_node false.

Definition path_is_file (r : node) (p : Path) : outcome bool :=
  stat_or r p (fun n => negb (is_dir_node n)) false.

Definition read_text (p : Path) : M str :=
  fun w =>
    match resolve (root w) p with
    | Some (File _ _ t) => (Ok t, w)
    | Some (Dir _ _ _) => (Raise (OSError EISDIR p), w)
    | None => (Raise (OSError (stat_errno (root w) p) p), w)
    end.

Definition fresh_file (p : Path) (data : str) : node :=
  File (fst (written_stat p data)) (snd (written_stat p data)) data.

(** [path.write_text(data)]: truncate an existing regular file, or create
    the file in an existing parent directory, whose modification time
    changes with the new entry; a name that is too long is not created. *)
Definition write_text (p : Path) (data : str) : M unit :=
  fun w =>
    let done r :=
      (Ok tt, World r (answers w) (trace w ++ [Wrote p data])) in
    match resolve (root w) p, realpath (root w) [] p with
    | Some (Dir _ _ _), _ => (Raise (OSError EISDIR p), w)
    | Some (File _ _ _), inr rp =>
        done (modify (root w) rp (fun _ => fresh_file p data))
    | _, _ =>
        match realpath (root w) [] (removelast p) with
        | inl _ => (Raise (OSError (stat_errno (root w) p) p), w)
        | inr rp =>
            match get (root w) rp with
            | Some (Dir _ _ _) =>
                if name_too_long (name p) then (Raise (OSError ENAMETOOLONG p), w)
                else
                  done (modify (root w) rp
                          (with_entry (snd (written_stat p data)) (name p)
                                      (fresh_file p data)))
            | Some (File _ _ _) => (Raise (OSError ENOTDIR p), w)
            | None => (Raise (OSError ENOENT p), w)
            end
        end
    end.

(** [Confirm.ask]: [Asked] records the call.  The prompt is shown until the
    reply is a yes or a no, so that [answers] holds the replies that count;
    at the end of the input, [input()] raises. *)
Definition confirm_ask : M bool :=
  fun w =>
    let w' := World (root w) (answers w) (trace w ++ [Asked]) in
    match answers w with
    | a :: rest => (Ok a, World (root w) rest (trace w ++ [Asked]))
    | [] => (Raise EOFError, w')
    end.

(** *** [process_file_core] *)

Definition process_file_core (filepath : Path) (transform : str) : M TransformResult :=
  found <- lift (fun r => path_exists r filepath) ;;
  if negb found then
    raise (FileNotFoundError (lit "File not found: " ++ path_str filepath))
  else
    content <- read_text filepath ;;
    let result :=
      if eqb transform (lit "upper") then upper content
      else if eqb transform (lit "lower") then lower content
      else content in
    ret {| original_size := length content;
           processed_size := length result;
           transform := transform;
           result := result |}.

(** *** [Path.glob]: the selectors of [pathlib]

    [Path.glob] splits the pattern into components and chains one selector
    per component: a recursive one for ["**"], a wildcard one for a
    component with [*], [?] or [[], a precise one for a plain name.  A
    pattern that ends with the separator gets an empty last component, for
    which the chain ends at once, so that the component before it only
    selects directories.  Each selector is given a directory and passes
    what it selects below it to its successor. *)

Inductive selector : Type :=
| TerminatingSelector
| PreciseSelector (name : str) (dironly : bool) (successor : selector)
| WildcardSelector (pat : str) (dironly : bool) (successor : selector)
| RecursiveWildcardSelector (successor : selector).

Definition is_wildcard_pattern (pat : str) : bool :=
  mem 42 pat || mem 63 pat || mem 91 pat.

Definition invalid_pattern : exn :=
  ValueError (lit "Invalid pattern: '**' can only be an entire path component").

(** [_make_selector (pat :: child_parts)]. *)
Fixpoint make_selector (pat : str) (child_parts : list str) : outcome selector :=
  let successor :=
    match child_parts with
    | [] => Ok TerminatingSelector
    | p :: ps => make_selector p ps
    end in
  let dironly := match child_parts with [] => false | _ :: _ => true end in
  match pat with
  | [] => Ok TerminatingSelector
  | _ :: _ =>
      if eqb pat (lit "**") then
        match successor with
        | Ok s => Ok (RecursiveWildcardSelector s)
        | Raise e => Raise e
        end
      else if contains (lit "**") pat then Raise invalid_pattern
      else
        match successor with
        | Ok s =>
            Ok (if is_wildcard_pattern pat then WildcardSelector pat dironly s
                else PreciseSelector pat dironly s)
        | Raise e => Raise e
        end
  end.

(** [_iterate_directories]: a directory, then the directories below each
    of its subdirectories, in scan order. *)
Fixpoint iterate_directories (n : node) (parent_path : Path) : list Path :=
  parent_path ::
  match n with
  | Dir _ _ es =>
      flat_map (fun e =>
                  if is_dir_node (snd e)
                  then iterate_directories (snd e) (parent_path ++ [fst e])
                  else []) es
  | File _ _ _ => []
  end.

Definition path_eqb (p q : Path) : bool :=
  (length p =? length q) && forallb (fun cd => eqb (fst cd) (snd cd)) (combine p q).

(** The [yielded] set of the recursive selector: the first occurrence of
    each path is kept. *)
Fixpoint unique (yielded : list Path) (ps : list Path) : list Path :=
  match ps with
  | [] => []
  | p :: ps' =>
      if existsb (path_eqb p) yielded then unique yielded ps'
      else p :: unique (p :: yielded) ps'
  end.

(** What a generator gives when it is run to its end: the paths it yields
    and, when it ends by raising, the exception. *)
Definition yields : Type := list Path * option exn.

(** One generator after another: the second one is not started when the
    first one raises. *)
Definition yield_from (a b : yields) : yields :=
  match snd a with
  | Some _ => a
  | None => (fst a ++ fst b, snd b)
  end.

(** [for x in xs: yield from f x]. *)
Fixpoint yield_each {A} (f : A -> yields) (xs : list A) : yields :=
  match xs with
  | [] => ([], None)
  | x :: xs' => yield_from (f x) (yield_each f xs')
  end.

(** [selector._select_from parent_path] on the file system [r].  The
    entries of a scan exist, so that only the test of a precise selector
    can raise. *)
Fixpoint select_from (r : node) (s : selector) (parent_path : Path) : yields :=
  match s with
  | TerminatingSelector => ([parent_path], None)
  | PreciseSelector nm dironly successor =>
      let path := parent_path ++ [nm] in
      match (if dironly then path_is_dir r path else path_exists r path) with
      | Ok true => select_from r successor path
      | Ok false => ([], None)
      | Raise e => ([], Some e)
      end
  | WildcardSelector pat dironly successor =>
      yield_each (fun e =>
                    if dironly && negb (is_dir_node (snd e)) then ([], None)
                    else if fnmatch (fst e) pat
                         then select_from r successor (parent_path ++ [fst e])
                         else ([], None))
                 (scandir r parent_path)
  | RecursiveWildcardSelector successor =>
      let starts :=
        match resolve r parent_path with
        | Some n => iterate_directories n parent_path
        | None => [parent_path]
        end in
      let found := yield_each (select_from r successor) starts in
      (unique [] (fst found), snd found)
  end.

(** The components [glob] hands to [_make_selector]. *)
Definition pattern_parts (pattern : str) : list str :=
  parse_parts pattern ++
  (if N.eqb (last pattern 0%N) slash then [[]] else []).

(** The generator [directory.glob(pattern)], run to its end on the file
    system [r].  The last selector has no method [select_from], which shows
    for a pattern such as ["./"]. *)
Definition glob_yields (r : node) (directory : Path) (pattern : str) : yields :=
  match pattern with
  | [] => ([], Some (ValueError (lit "Unacceptable pattern: ''")))
  | _ :: _ =>
      if is_absolute pattern then ([], Some NotImplementedError)
      else
        match pattern_parts pattern with
        | [] => ([], Some IndexError)
        | pat :: child_parts =>
            match make_selector pat child_parts with
            | Raise e => ([], Some e)
            | Ok TerminatingSelector => ([], Some AttributeError)
            | Ok s =>
                match path_is_dir r directory with
                | Ok true => select_from r s directory
                | Ok false => ([], None)
                | Raise e => ([], Some e)
                end
            end
        end
  end.

(** [list(directory.glob(pattern))]. *)
Definition glob (directory : Path) (pattern : str) : M (list Path) :=
  fun w =>
    match glob_yields (root w) directory pattern with
    | (paths, None) => (Ok paths, w)
    | (_, Some e) => (Raise e, w)
    end.

(** *** [list_items_core] *)

(** [path.stat()], as the size and the time stamp of the node. *)
Definition stat (p : Path) : M (N * Z) :=
  fun w =>
    match resolve (root w) p with
    | Some (File sz mt _) => (Ok (sz, mt), w)
    | Some (Dir sz mt _) => (Ok (sz, mt), w)
    | None => (Raise (OSError (stat_errno (root w) p) p), w)
    end.

(** [datetime.fromtimestamp(t)]: the time stamp stands for the date it
    converts to. *)
Definition fromtimestamp (t : Z) : M Z :=
  match fromtimestamp_error t with
  | Some e => raise e
  | None => ret t
  end.

(** The dictionary built for one path of the scan, its fields evaluated
    in the order of the source: [is_dir], then [is_file] and [stat] for
    the size, then [stat] again and [fromtimestamp] for the time. *)
Definition entry_of (path : Path) : M DirectoryEntry :=
  isd <- lift (fun r => path_is_dir r path) ;;
  isf <- lift (fun r => path_is_file r path) ;;
  size <- (if isf then st <- stat path ;; ret (fst st) else ret 0%N) ;;
  st <- stat path ;;
  modified <- fromtimestamp (snd st) ;;
  ret {| entry_name := name path;
         entry_type := if isd then lit "dir" else lit "file";
         entry_size := size;
         entry_modified := modified |}.

(** The loop [for path in ...: items.append(...)] over the paths the
    generator yields. *)
Fixpoint collect (paths : list Path) (items : list DirectoryEntry) : M (list DirectoryEntry) :=
  match paths with
  | [] => ret items
  | path :: paths' => e <- entry_of path ;; collect paths' (items ++ [e])
  end.

(** [lambda x: (x["type"], x["name"])]. *)
Definition sort_key (x : DirectoryEntry) : str * str := (entry_type x, entry_name x).

(** [a < b] on pairs of strings: the first components decide unless they
    are equal. *)
Definition tuple_ltb (a b : str * str) : bool :=
  match compare (fst a) (fst b) with
  | Lt => true
  | Gt => false
  | Eq => match compare (snd a) (snd b) with Lt => true | _ => false end
  end.

(** [sorted(items, key=...)] is a stable sort that only uses [<] on the
    keys; it is modelled by stable insertion, every element being put
    before the first one that is not smaller than it. *)
Fixpoint insert_sorted (x : DirectoryEntry) (l : list DirectoryEntry) : list DirectoryEntry :=
  match l with
  | [] => [x]
  | y :: l' =>
      if tuple_ltb (sort_key y) (sort_key x) then y :: insert_sorted x l'
      else x :: l
  end.

Definition sorted (items : list DirectoryEntry) : list DirectoryEntry :=
  fold_right insert_sorted [] items.

(** The loop runs the generator of [glob] step by step: the entry of a
    path is built before the next path is looked for, so that an exception
    the generator ends with comes after the entries of the paths it
    yielded. *)
Definition list_items_core (directory : Path) (pattern : str) : M (list DirectoryEntry) :=
  found <- lift (fun r => path_exists r directory) ;;
  if negb found then
    raise (FileNotFoundError (lit "Directory not found: " ++ path_str directory))
  else
    scan <- ask_fs (fun r => glob_yields r directory pattern) ;;
    items <- collect (fst scan) [] ;;
    match snd scan with
    | Some e => raise e
    | None => ret (sorted items)
    end.

(** *** Messages and the console *)

Definition errno_number (e : errno) : N :=
  match e with
  | ENOENT => 2
  | ENOTDIR => 20
  | EISDIR => 21
  | ENAMETOOLONG => 36
  end.

Definition strerror (e : errno) : str :=
  match e with
  | ENOENT => lit "No such file or directory"
  | ENOTDIR => lit "Not a directory"
  | EISDIR => lit "Is a directory"
  | ENAMETOOLONG => lit "File name too long"
  end.

(** [str(e)].  [typer.Exit] is raised with a keyword argument and has no
    text. *)
Definition str_exn (e : exn) : str :=
  match e with
  | FileNotFoundError message => message
  | OSError en filename =>
      lit "[Errno " ++ decimal (errno_number en) ++ lit "] " ++ strerror en
      ++ lit ": " ++ repr (path_str filename)
  | ValueError message => message
  | NotImplementedError => lit "Non-relative patterns are unsupported"
  | IndexError => lit "tuple index out of range"
  | AttributeError =>
      lit "'_TerminatingSelector' object has no attribute 'select_from'"
  | EOFError => lit "EOF when reading a line"
  | MarkupError message => message
  | Exit _ => []
  end.

(** [except FileNotFoundError]: the class of the exception decides. *)
Definition is_file_not_found (e : exn) : bool :=
  match e with
  | FileNotFoundError _ => true
  | OSError ENOENT _ => true
  | _ => false
  end.

(** The message of the [MarkupError] a text raises when it is rendered,
    [None] when it renders. *)
Definition markup_error (markup : str) : option str :=
  Rich.render style_normalize meta_error markup.

(** Rendering a text as markup: [console.print(markup)], and the text
    column of the progress bar when the display is refreshed.  What is
    shown is not recorded. *)
Definition render_markup (markup : str) : M unit :=
  match markup_error markup with
  | Some message => raise (MarkupError message)
  | None => ret tt
  end.

Definition console_print (markup : str) : M unit := render_markup markup.

(** *** The [process] command

    [verbose] only sets the level of logging, whose records go to the
    standard error through the handler of [logging] and never stop the
    run; it is not an argument of the model. *)

Definition output_name (file : Path) (transform : str) : str :=
  stem file ++ lit "_" ++ transform ++ suffix file.

(** The texts the command prints.  The characters outside ASCII are the
    warning sign with its variation selector, the magnifying glass, the
    arrow, the check mark, the ballot cross, the bullet and the sparkles. *)
Definition about_to_process (n : nat) : str :=
  lit "[yellow]" ++ [9888%N; 65039%N] ++ lit "  About to process "
  ++ decimal (N.of_nat n) ++ lit " files[/yellow]".

Definition aborted_by_user : str := lit "[red]Aborted by user[/red]".

Definition dry_run_banner : str :=
  [10%N] ++ lit "[cyan]" ++ [128269%N]
  ++ lit " DRY RUN - No files will be modified[/cyan]".

Definition would_process (file : Path) (transform : str) : str :=
  lit "  Would process: " ++ name file ++ [32%N; 8594%N; 32%N] ++ transform.

Definition processing_files : str := lit "Processing files...".

Definition done_with (file : Path) : str := [10003%N; 32%N] ++ name file.

Definition failed_with (file : Path) : str := [10007%N; 32%N] ++ name file.

Definition some_files_failed : str :=
  [10%N] ++ lit "[red]" ++ [9888%N; 65039%N] ++ lit "  Some files failed:[/red]".

Definition failure_line (file : Path) (error : exn) : str :=
  [32%N; 32%N; 8226%N; 32%N] ++ name file ++ lit ": " ++ str_exn error.

Definition successfully_processed (n : nat) : str :=
  lit "[green]" ++ [10024%N] ++ lit " Successfully processed "
  ++ decimal (N.of_nat n) ++ lit " file(s)[/green]".

(** What the text column [TextColumn("[progress.description]{task.description}")]
    renders for a task. *)
Definition text_column (description : str) : str :=
  lit "[progress.description]" ++ description.

(** The body of the loop over [files], with its [try] and [except]: the
    state of the loop is the list [errors] and the description of the
    task, which [progress.update] sets without showing it. *)
Definition process_one (output_dir : Path) (transform : str)
           (state : list (Path * exn) * str) (file : Path)
  : M (list (Path * exn) * str) :=
  try_except
    (r <- process_file_core file transform ;;
     write_text (joinpath output_dir (output_name file transform)) (result r) ;;;
     ret (fst state, done_with file))
    (fun e => ret (fst state ++ [(file, e)], failed_with file)).

Fixpoint process_loop (output_dir : Path) (transform : str)
         (files : list Path) (state : list (Path * exn) * str)
  : M (list (Path * exn) * str) :=
  match files with
  | [] => ret state
  | file :: files' =>
      state' <- process_one output_dir transform state file ;;
      process_loop output_dir transform files' state'
  end.

(** The progress bar renders its text column when the task is added and,
    for the last time, when the [with] block is left; in between the
    display is refreshed by a thread of its own, and what that thread
    raises does not reach the command. *)
Definition process (files : list Path) (transform : str) (output_dir : option Path)
           (dry_run yes : bool) : M unit :=
  (if (1 <? length files) && negb yes && negb dry_run then
     console_print (about_to_process (length files)) ;;;
     go <- confirm_ask ;;
     if negb go then
       console_print aborted_by_user ;;;
       raise (Exit 130)
     else ret tt
   else ret tt) ;;;
  if dry_run then
    console_print dry_run_banner ;;;
    for_each files (fun file => console_print (would_process file transform)) ;;;
    raise (Exit 0)
  else
    let output_dir := match output_dir with Some d => d | None => cwd end in
    render_markup (text_column processing_files) ;;;
    state <- process_loop output_dir transform files ([], processing_files) ;;
    render_markup (text_column (snd state)) ;;;
    match fst state with
    | _ :: _ =>
        console_print some_files_failed ;;;
        for_each (fst state)
                 (fun fe =>
                    console_print (failure_line (fst fe) (snd fe)) ;;;
                    emit (Reported (name (fst fe)) (snd fe))) ;;;
        raise (Exit 1)
    | [] => console_print (successfully_processed (length files))
    end.

(** *** The [list] command

    The command prints on two streams: [typer.echo] writes to the standard
    output, the console and the handler of [logging] to the standard
    error.  What it prints is kept as data, in the order it is printed. *)

(** [modified.strftime("%Y-%m-%d %H:%M")], on the time stamp. *)
Variable strftime : Z -> str.

(** [Echo] is the text [typer.echo] writes; [Print] a text the console has
    rendered and shown; [PrintTable] the table, with its title, its caption
    and its rows; [Log] a record that [logging] emits, by its level and
    its message. *)
Inductive output : Type :=
| Echo (text : str)
| Print (markup : str)
| PrintTable (title caption : str) (rows : list (str * str * str * str))
| Log (level message : str).

(** [{"name": i["name"], "type": i["type"], "size": i["size"]}]. *)
Definition json_of (i : DirectoryEntry) : json :=
  JObject [ (lit "name", JString (entry_name i));
            (lit "type", JString (entry_type i));
            (lit "size", JInt (entry_size i)) ].

(** The cells of [table.add_row] for one item. *)
Definition row_of (item : DirectoryEntry) : str * str * str * str :=
  let size_str :=
    if eqb (entry_type item) (lit "file")
    then format_thousands (entry_size item)
    else lit "-" in
  (entry_name item, entry_type item, size_str, strftime (entry_modified item)).

(** [sum(i['size'] for i in items)]. *)
Definition total_size (items : list DirectoryEntry) : N :=
  fold_left N.add (map entry_size items) 0%N.

(** [directory.resolve()], and the text of a resolved path, which is
    absolute. *)
Definition resolved (r : node) (directory : Path) : Path :=
  match realpath r [] directory with
  | inr rp => rp
  | inl _ => directory
  end.

Definition absolute_str (p : Path) : str :=
  match p with
  | [] => lit "/"
  | _ :: _ => flat_map (fun c => slash :: c) p
  end.

(** The texts of the command; the title begins with the folder sign. *)
Definition listing_debug (directory : Path) (pattern : str) : str :=
  lit "Listing " ++ path_str directory ++ lit " with pattern=" ++ pattern.

Definition table_title (r : node) (directory : Path) : str :=
  [128193%N; 32%N] ++ absolute_str (resolved r directory).

Definition table_caption (found : nat) (pattern : str) : str :=
  lit "Found " ++ decimal (N.of_nat found) ++ lit " items matching '"
  ++ pattern ++ lit "'".

Definition total_line (items : list DirectoryEntry) : str :=
  [10%N] ++ lit "[dim]Total size: " ++ format_thousands (total_size items)
  ++ lit " bytes[/dim]".

Definition error_line (e : exn) : str :=
  lit "[red]Error: " ++ str_exn e ++ lit "[/red]".

Definition tip_line : str :=
  lit "[yellow]Tip: Check the path exists and you have read permissions[/yellow]".

Definition unexpected_line (e : exn) : str :=
  lit "[red]Unexpected error: " ++ str_exn e ++ lit "[/red]".

(** The texts of a table in the order [console.print(table)] renders
    them on a console wider than the borders of the table: the cells are
    measured column by column, then come the title and the caption.  The
    headers of the columns are plain words. *)
Definition table_texts (title caption : str) (rows : list (str * str * str * str))
  : list str :=
  map (fun row => fst (fst (fst row))) rows
  ++ map (fun row => snd (fst (fst row))) rows
  ++ map (fun row => snd (fst row)) rows
  ++ map (fun row => snd row) rows
  ++ [title; caption].

(** The first text of a list that does not render. *)
Fixpoint first_error (texts : list str) : option str :=
  match texts with
  | [] => None
  | text :: texts' =>
      match markup_error text with
      | Some message => Some message
      | None => first_error texts'
      end
  end.

(** [console.print] of a text, and of the table: nothing is shown of what
    does not render. *)
Definition print (markup : str) (shown : list output) : outcome unit * list output :=
  match markup_error markup with
  | Some message => (Raise (MarkupError message), shown)
  | None => (Ok tt, shown ++ [Print markup])
  end.

Definition print_table (title caption : str) (rows : list (str * str * str * str))
           (shown : list output) : outcome unit * list output :=
  match first_error (table_texts title caption rows) with
  | Some message => (Raise (MarkupError message), shown)
  | None => (Ok tt, shown ++ [PrintTable title caption rows])
  end.

(** The two handlers.  An exception raised by a [console.print] of a
    handler leaves the command as it is. *)
Definition handle (e : exn) (shown : list output) : outcome unit * list output :=
  if is_file_not_found e then
    match print (error_line e) shown with
    | (Ok _, shown1) =>
        match print tip_line shown1 with
        | (Ok _, shown2) => (Raise (Exit 1), shown2)
        | failed => failed
        end
    | failed => failed
    end
  else
    match print (unexpected_line e) shown with
    | (Ok _, shown1) =>
        (Raise (Exit 1), shown1 ++ [Log (lit "ERROR") (lit "Failed to list directory")])
    | failed => failed
    end.

(** The command, as the status it ends with, what it printed, and the
    world it leaves.  The debug record is emitted with [--verbose] only. *)
Definition list_command (directory : Path) (pattern : str)
           (json_output verbose : bool) : world -> outcome unit * list output * world :=
  fun w =>
    let shown :=
      if verbose then [Log (lit "DEBUG") (listing_debug directory pattern)] else [] in
    match list_items_core directory pattern w with
    | (listed, w') =>
        let tried :=
          match listed with
          | Raise e => (Raise e, shown)
          | Ok items =>
              if json_output then
                (Ok tt, shown ++ [Echo (dumps (JArray (map json_of items)))])
              else
                match print_table (table_title (root w') directory)
                                  (table_caption (length items) pattern)
                                  (map row_of items) shown with
                | (Ok _, shown1) =>
                    if verbose then print (total_line items) shown1
                    else (Ok tt, shown1)
                | failed => failed
                end
          end in
        match tried with
        | (Ok _, shown1) => (Ok tt, shown1, w')
        | (Raise e, shown1) => (fst (handle e shown1), snd (handle e shown1), w')
        end
    end.

(** What of the output goes to the standard output. *)
Definition stdout (outs : list output) : list str :=
  flat_map (fun o => match o with Echo text => [text] | _ => [] end) outs.

(** *** Vocabulary of the specification *)

(** The text a transform name stands for. *)
Definition transformed (transform : str) (content : str) : str :=
  if eqb transform (lit "upper") then upper content
  else if eqb transform (lit "lower") then lower content
  else content.

(** Where the [process] command writes the result for [file]. *)
Definition output_path (output_dir : Path) (file : Path) (transform : str) : Path :=
  joinpath output_dir (output_name file transform).

(** [file] succeeds in [w] and leaves [w']: it is a regular file with some
    text, and writing the transformed text to its output path works. *)
Definition succeeds (output_dir : Path) (transform : str) (file : Path)
           (w w' : world) : Prop :=
  exists sz mt content,
    resolve (root w) file = Some (File sz mt content) /\
    write_text (output_path output_dir file transform)
               (transformed transform content) w = (Ok tt, w').

(** Every file of the list succeeds, one after the other. *)
Fixpoint all_succeed (output_dir : Path) (transform : str) (files : list Path)
         (w w' : world) : Prop :=
  match files with
  | [] => w' = w
  | file :: files' =>
      exists w1, succeeds output_dir transform file w w1 /\
                 all_succeed output_dir transform files' w1 w'
  end.

(** [file] fails in [w] with [e]: reading it raises [e], or it is read and
    writing the result raises [e]. *)
Definition fails (output_dir : Path) (transform : str) (file : Path)
           (w : world) (e : exn) : Prop :=
  fst (process_file_core file transform w) = Raise e \/
  exists sz mt content,
    resolve (root w) file = Some (File sz mt content) /\
    fst (write_text (output_path output_dir file transform)
                    (transformed transform content) w) = Raise e.

(** The world in which processing starts, when it does: with several files
    and without [--yes] the prompt is shown and the reply must be a yes. *)
Definition confirmed (files : list Path) (yes : bool) (w : world) : option world :=
  if (1 <? length files) && negb yes then
    match answers w with
    | true :: rest => Some (World (root w) rest (trace w ++ [Asked]))
    | _ => None
    end
  else Some w.

(** The events of a list that are writes. *)
Definition writes (evs : list event) : list event :=
  filter (fun ev => match ev with Wrote _ _ => true | _ => false end) evs.

(** The size cell of a row of the table, and the items of kind ["file"]. *)
Definition size_cell (row : str * str * str * str) : str := snd (fst row).

Definition is_file_entry (e : DirectoryEntry) : bool := eqb (entry_type e) (lit "file").

(** The events of a list that are prompts, and those that are reports. *)
Definition prompts (evs : list event) : list event :=
  filter (fun ev => match ev with Asked => true | _ => false end) evs.

Definition reports (evs : list event) : list event :=
  filter (fun ev => match ev with Reported _ _ => true | _ => false end) evs.

(** The command asks for confirmation. *)
Definition must_confirm (files : list Path) (dry_run yes : bool) : bool :=
  (1 <? length files) && negb yes && negb dry_run.

(** The order of the listing: by kind, and by name within a kind, both as
    strings. *)
Definition by_kind_then_name (a b : DirectoryEntry) : Prop :=
  compare (entry_type a) (entry_type b) = Lt \/
  (entry_type a = entry_type b /\ compare (entry_name a) (entry_name b) <> Gt).

Definition by_name (a b : DirectoryEntry) : Prop :=
  compare (entry_name a) (entry_name b) <> Gt.

(** The names of the direct children of a directory. *)
Definition child_names (r : node) (directory : Path) : list str :=
  map fst (scandir r directory).

(** A text renders: [rich] raises nothing for it. *)
Definition renders (markup : str) : Prop := markup_error markup = None.

(** A table renders: so do its cells, its title and its caption. *)
Definition table_renders (title caption : str) (rows : list (str * str * str * str))
  : Prop :=
  first_error (table_texts title caption rows) = None.

End Program.

End Cli.

Import Cli.
Local Open Scope py_scope.
(** ** A concrete interpreter and a concrete file system, for running the model *)

Module Sample.

(** Matching with [*] (any run of characters), [?] (any one character)
    and plain characters: [fnmatch] on patterns without brackets. *)
Fixpoint wildcard_match (pat nm : str) : bool :=
  match pat with
  | [] => match nm with [] => true | _ :: _ => false end
  | c :: pat' =>
      if N.eqb c 42 then
        (fix star (s : str) : bool :=
           wildcard_match pat' s ||
           match s with [] => false | _ :: s' => star s' end) nm
      else
        match nm with
        | [] => false
        | d :: nm' => (N.eqb c 63 || N.eqb c d) && wildcard_match pat' nm'
        end
  end.

Definition fnmatch (nm pat : str) : bool := wildcard_match pat nm.

Definition unchanged (c : N) : list N := [c].

Definition small_sigma (s : str) (i : nat) : N := 963.

Definition written_stat (p : Path) (data : str) : N * Z :=
  (N.of_nat (length data), 1700000000%Z).

Definition cwd : Path := [lit "home"].

(** /home/{b.txt, a/{x.txt, deep/}, a.txt, notes.md} *)
Definition home : node :=
  Dir 4096 10
    [ (lit "b.txt", File 5 11 (lit "Hello"));
      (lit "a", Dir 4096 12
                  [ (lit "x.txt", File 3 13 (lit "abc"));
                    (lit "deep", Dir 4096 14 []) ]);
      (lit "a.txt", File 7 15 (lit "Mixed 1"));
      (lit "notes.md", File 1 16 [223%N]) ].

Definition disk : node := Dir 4096 1 [ (lit "home", home) ].

Definition w0 : world := World disk [] [].

(** What [a.txt] becomes under ["upper"]. *)
Definition a_upper : TransformResult :=
  {| original_size := 7;
     processed_size := 7;
     transform := lit "upper";
     result := lit "MIXED 1" |}.

(** Names of more than 255 characters are too long (the names of the
    samples are ASCII, one byte a character). *)
Definition name_too_long (nm : str) : bool := 255 <? length nm.

(** The sample paths are absolute: their text is the components, each
    after a separator. *)
Definition path_str (p : Path) : str :=
  match p with
  | [] => lit "/"
  | _ :: _ => flat_map (fun c => slash :: c) p
  end.

(** [repr] of a text of printable ASCII characters without quotes and
    backslashes: the text in single quotes. *)
Definition repr (s : str) : str := lit "'" ++ s ++ lit "'".

(** In UTC the time stamps before the year 10000 convert. *)
Definition fromtimestamp_error (t : Z) : option exn :=
  if (t <? 253402300800)%Z then None
  else Some (ValueError (lit "year 10000 is out of range")).

(** [Style.normalize] on a name that is one word, a colour or no style at
    all: the name, stripped and in lower case. *)
Definition to_lower (c : N) : N :=
  if ((65 <=? c) && (c <=? 90))%N then (c + 32)%N else c.

Definition style_normalize (s : str) : str := map to_lower (strip s).

(** The samples have no handler tags. *)
Definition meta_error (parameters : str) : option str := None.

Definition markup_error := markup_error style_normalize meta_error.

Definition process_file_core :=
  process_file_core unchanged unchanged small_sigma name_too_long path_str.
Definition glob := glob fnmatch name_too_long.
Definition list_items_core :=
  list_items_core fnmatch name_too_long path_str fromtimestamp_error.
Definition process :=
  process unchanged unchanged small_sigma written_stat cwd name_too_long
          path_str repr style_normalize meta_error.

(** Time stamps shown as their decimal digits. *)
Definition strftime (t : Z) : str := decimal (Z.to_N t).

Definition list_command :=
  list_command fnmatch name_too_long path_str repr fromtimestamp_error
               style_normalize meta_error strftime.

(** /{x/n.txt, y/n.txt, out/}: two files of the same name. *)
Definition twins : node :=
  Dir 4096 1
    [ (lit "x", Dir 4096 2 [ (lit "n.txt", File 2 3 (lit "ab")) ]);
      (lit "y", Dir 4096 4 [ (lit "n.txt", File 2 5 (lit "cd")) ]);
      (lit "out", Dir 4096 6 []) ].

(** A name of 256 characters. *)
Definition long_name : str := repeat 120%N 256.

End Sample.

(** * Properties *)

(** ** Strings *)

Lemma str_eqb_eq (a b : str) : eqb a b = true <-> a = b.
Proof.
  revert b; induction a as [|x a IH]; intros [|y b]; simpl; split;
    try congruence; try reflexivity.
  - intros H. apply andb_true_iff in H as [Hx Hab].
    apply N.eqb_eq in Hx. apply IH in Hab. congruence.
  - intros H. injection H as -> ->.
    rewrite N.eqb_refl. simpl. now apply IH.
Qed.

Lemma str_eqb_refl (a : str) : eqb a a = true.
Proof. now apply str_eqb_eq. Qed.

Lemma str_eqb_neq (a b : str) : eqb a b = false <-> a <> b.
Proof.
  split.
  - intros H E. apply str_eqb_eq in E. congruence.
  - intros H. destruct (eqb a b) eqn:E; [|reflexivity].
    apply str_eqb_eq in E. contradiction.
Qed.

Lemma str_compare_eq (a b : str) : compare a b = Eq <-> a = b.
Proof.
  revert b; induction a as [|x a IH]; intros [|y b]; simpl; split;
    try congruence; try reflexivity.
  - destruct (N.compare x y) eqn:E; try discriminate.
    apply N.compare_eq_iff in E. intros H. apply IH in H. congruence.
  - intros H. injection H as -> ->. rewrite N.compare_refl. now apply IH.
Qed.

Lemma str_compare_antisym (a b : str) : compare b a = CompOpp (compare a b).
Proof.
  revert b; induction a as [|x a IH]; intros [|y b]; simpl; try reflexivity.
  rewrite (N.compare_antisym x y).
  destruct (N.compare x y); simpl; auto.
Qed.

Lemma str_compare_lt_trans (a b c : str) :
  compare a b = Lt -> compare b c = Lt -> compare a c = Lt.
Proof.
  revert b c; induction a as [|x a IH]; intros [|y b] [|z c]; simpl;
    try congruence.
  destruct (N.compare x y) eqn:Exy; try discriminate;
    destruct (N.compare y z) eqn:Eyz; try discriminate; intros H1 H2.
  - apply N.compare_eq_iff in Exy, Eyz. subst.
    rewrite N.compare_refl. eauto.
  - apply N.compare_eq_iff in Exy. subst. now rewrite Eyz.
  - apply N.compare_eq_iff in Eyz. subst. now rewrite Exy.
  - rewrite N.compare_lt_iff in Exy, Eyz.
    assert (E : (x ?= z)%N = Lt) by (apply N.compare_lt_iff; lia).
    now rewrite E.
Qed.

(** ** The file system *)

Lemma get_app (n : node) (p q : list str) :
  get n (p ++ q) =
  match get n p with
  | Some m => get m q
  | None => None
  end.
Proof.
  revert n; induction p as [|c p IH]; intros n; simpl; [reflexivity|].
  destruct (lookup_entry c (entries_of n)); [apply IH | reflexivity].
Qed.

Lemma get_removelast (n m : node) (q : list str) :
  get n q = Some m -> get n (removelast q) <> None.
Proof.
  destruct q as [|c q]; [simpl; congruence|].
  assert (Hq : c :: q <> []) by discriminate.
  destruct (exists_last Hq) as [p [x ->]].
  rewrite removelast_last, get_app.
  destruct (get n p); [discriminate|]. intros H. discriminate H.
Qed.

Lemma lookup_upsert_same (c : str) (new : node) (es : list (str * node)) :
  lookup_entry c (upsert c new es) = Some new.
Proof.
  induction es as [|[k n] es IH]; simpl.
  - now rewrite str_eqb_refl.
  - destruct (eqb k c) eqn:E; simpl; rewrite E; [reflexivity | exact IH].
Qed.

Lemma lookup_upsert_other (c c' : str) (new : node) (es : list (str * node)) :
  c <> c' ->
  lookup_entry c' (upsert c new es) = lookup_entry c' es.
Proof.
  intros Hc. induction es as [|[k n] es IH]; simpl.
  - apply str_eqb_neq in Hc. now rewrite Hc.
  - destruct (eqb k c) eqn:E; simpl.
    + apply str_eqb_eq in E. subst k.
      apply str_eqb_neq in Hc. now rewrite Hc.
    + destruct (eqb k c'); [reflexivity | exact IH].
Qed.

(** The node at a path after [modify] at that path. *)
Lemma get_modify (f : node -> node) (rp : list str) (n m : node) :
  get n rp = Some m -> get (modify n rp f) rp = Some (f m).
Proof.
  revert n; induction rp as [|c rp IH]; intros n; simpl.
  - congruence.
  - destruct n as [sz mt t|sz mt es]; simpl; [discriminate|].
    destruct (lookup_entry c es) as [m0|] eqn:El; [|discriminate].
    intros H. simpl. rewrite lookup_upsert_same. now apply IH.
Qed.

(** [modify] keeps the kind of everything that was there, when the change
    at its target does. *)
Lemma modify_kind (f : node -> node) (rp : list str) (n : node) :
  (forall m, get n rp = Some m ->
             forall q, get m q <> None ->
                       node_kind (get (f m) q) = node_kind (get m q)) ->
  forall q, get n q <> None ->
            node_kind (get (modify n rp f) q) = node_kind (get n q).
Proof.
  revert n; induction rp as [|c rp IH]; intros n Hf q Hq; simpl.
  - now apply Hf.
  - destruct n as [sz mt t|sz mt es]; [reflexivity|].
    destruct (lookup_entry c es) as [m0|] eqn:El; [|reflexivity].
    destruct q as [|c' q]; [reflexivity|].
    simpl in *. destruct (eqb c c') eqn:E.
    + apply str_eqb_eq in E. subst c'.
      rewrite lookup_upsert_same. rewrite El in *. now apply IH.
    + apply str_eqb_neq in E. now rewrite lookup_upsert_other.
Qed.

(** A walk that succeeds in one tree succeeds, with the same result, in
    every tree that keeps the kind of what was there. *)
Lemma realpath_stable (r r' : node) :
  (forall q, get r q <> None -> node_kind (get r' q) = node_kind (get r q)) ->
  forall p acc rp,
    get r acc <> None ->
    realpath r acc p = inr rp ->
    realpath r' acc p = inr rp /\ get r rp <> None.
Proof.
  intros Hk. induction p as [|c p IH]; intros acc rp Hacc; simpl.
  - intros H; injection H as <-. auto.
  - pose proof (Hk acc Hacc) as Ka.
    destruct (get r acc) as [[sz mt t|sz mt es]|] eqn:Er; try discriminate.
    destruct (get r' acc) as [[sz' mt' t'|sz' mt' es']|] eqn:Er';
      try discriminate.
    destruct (eqb c (lit "..")).
    + apply IH. eapply get_removelast; eauto.
    + destruct (lookup_entry c es) as [m0|] eqn:El; [|discriminate].
      assert (Hc : get r (acc ++ [c]) <> None).
      { rewrite get_app, Er. simpl. rewrite El. discriminate. }
      pose proof (Hk _ Hc) as Kc.
      rewrite !get_app, Er, Er' in Kc. simpl in Kc. rewrite El in Kc.
      destruct (lookup_entry c es'); [|discriminate].
      now apply IH.
Qed.

(** ** Numbers as text *)

Lemma uint_digits_are_digits (u : Decimal.uint) : Forall is_digit (uint_digits u).
Proof.
  induction u; simpl; constructor; try assumption; unfold is_digit; lia.
Qed.

Lemma decimal_digits (n : N) : Forall is_digit (decimal n).
Proof. apply uint_digits_are_digits. Qed.

(** [group3] unfolds in steps of three digits. *)
Lemma group3_step (a b c d : N) (l : str) :
  group3 (a :: b :: c :: d :: l) = a :: b :: c :: comma :: group3 (d :: l).
Proof. reflexivity. Qed.

(** Induction on a string in steps of three characters. *)
Lemma three_step_induction (P : str -> Prop) :
  (forall l, length l <= 3 -> P l) ->
  (forall a b c d l, P (d :: l) -> P (a :: b :: c :: d :: l)) ->
  forall l, P l.
Proof.
  intros Hshort Hstep l.
  assert (H : forall n l, length l <= n -> P l).
  { induction n as [|n IH]; intros l' Hl.
    - apply Hshort. lia.
    - destruct l' as [|a [|b [|c [|d l']]]]; try (apply Hshort; simpl; lia).
      apply Hstep. apply IH. simpl in *. lia. }
  apply (H (length l)). lia.
Qed.

Lemma group3_without_commas (l : str) :
  Forall is_digit l ->
  filter (fun c => negb (c =? comma)%N) (group3 l) = l.
Proof.
  assert (Hkeep : forall l, Forall is_digit l ->
                            filter (fun c => negb (c =? comma)%N) l = l).
  { induction 1 as [|c l' Hc _ IH]; simpl; [reflexivity|].
    replace (c =? comma)%N with false
      by (symmetry; apply N.eqb_neq; unfold is_digit, comma in *; lia).
    simpl. now rewrite IH. }
  induction l as [l Hl|a b c d l IH] using three_step_induction; intros Hd.
  - destruct l as [|a [|b [|c [|d l]]]]; simpl in Hl; try lia;
      now apply Hkeep.
  - rewrite group3_step.
    inversion Hd as [|? ? Ha Hd1]; subst.
    inversion Hd1 as [|? ? Hb Hd2]; subst.
    inversion Hd2 as [|? ? Hc Hd3]; subst.
    assert (Hno : forall x, is_digit x -> (x =? comma)%N = false).
    { intros x Hx. apply N.eqb_neq. unfold is_digit, comma in *. lia. }
    cbn [filter]. rewrite (Hno a Ha), (Hno b Hb), (Hno c Hc), N.eqb_refl.
    cbn [negb]. do 3 f_equal. now apply IH.
Qed.

(** In [group3 l], counted from the start, every fourth character is a
    comma and no other one is. *)
Lemma group3_commas (l : str) :
  Forall is_digit l ->
  forall i, i < length (group3 l) ->
            (nth i (group3 l) 0%N =? comma)%N = (i mod 4 =? 3).
Proof.
  assert (Hdigit : forall l, Forall is_digit l ->
                     forall i, i < length l -> (nth i l 0%N =? comma)%N = false).
  { intros l' Hl i Hi. apply N.eqb_neq.
    rewrite Forall_forall in Hl.
    pose proof (Hl _ (nth_In l' 0%N Hi)) as H.
    unfold is_digit, comma in *. lia. }
  induction l as [l Hl|a b c d l IH] using three_step_induction; intros Hd i Hi.
  - assert (Hsame : group3 l = l)
      by (destruct l as [|x [|y [|z [|u l]]]]; simpl in Hl; try lia; reflexivity).
    rewrite Hsame in *. rewrite (Hdigit l Hd i Hi).
    symmetry. apply Nat.eqb_neq. rewrite Nat.mod_small by lia. lia.
  - rewrite group3_step in *.
    inversion Hd as [|? ? Ha Hd1]; subst.
    inversion Hd1 as [|? ? Hb Hd2]; subst.
    inversion Hd2 as [|? ? Hc Hd3]; subst.
    assert (Hno : forall x, is_digit x -> (x =? comma)%N = false).
    { intros x Hx. apply N.eqb_neq. unfold is_digit, comma in *. lia. }
    destruct i as [|[|[|[|i]]]]; cbn [nth].
    + now rewrite (Hno a Ha).
    + now rewrite (Hno b Hb).
    + now rewrite (Hno c Hc).
    + reflexivity.
    + cbn [length] in Hi. rewrite (IH Hd3 i) by lia.
      replace (S (S (S (S i)))) with (i + 1 * 4) by lia.
      now rewrite Nat.Div0.mod_add.
Qed.

Lemma filter_rev_commas (l : str) :
  filter (fun c => negb (c =? comma)%N) (rev l)
  = rev (filter (fun c => negb (c =? comma)%N) l).
Proof.
  induction l as [|x l IH]; simpl; [reflexivity|].
  rewrite filter_app, IH. simpl. destruct (negb (x =? comma)%N); simpl.
  - reflexivity.
  - now rewrite app_nil_r.
Qed.

Lemma format_thousands_digits (n : N) :
  filter (fun c => negb (c =? comma)%N) (format_thousands n) = decimal n.
Proof.
  unfold format_thousands. rewrite filter_rev_commas.
  rewrite group3_without_commas; [apply rev_involutive|].
  apply Forall_rev. apply decimal_digits.
Qed.

(** [f"{n:,}"] is the decimal digits of [n] with commas put in: without
    its commas it is [str(n)], and counted from the right its commas are
    exactly the fourth, eighth, ... characters. *)
Lemma format_thousands_grouping (n : N) :
  filter (fun c => negb (c =? comma)%N) (format_thousands n) = decimal n /\
  forall i, i < length (format_thousands n) ->
            (nth i (rev (format_thousands n)) 0%N =? comma)%N = (i mod 4 =? 3).
Proof.
  split; [apply format_thousands_digits|].
  unfold format_thousands.
  intros i Hi. rewrite rev_involutive. rewrite length_rev in Hi.
  apply group3_commas; [|exact Hi].
  apply Forall_rev. apply decimal_digits.
Qed.

(** ** The JSON text *)

Ltac plain_chars :=
  repeat (apply Forall_cons; [unfold plain_ascii; simpl; lia|]);
  try apply Forall_nil.

Lemma hexdigit_plain (d : N) : (d < 16)%N -> plain_ascii (hexdigit d).
Proof.
  intros H. unfold hexdigit, plain_ascii.
  destruct (d <? 10)%N eqn:E.
  - apply N.ltb_lt in E. lia.
  - apply N.ltb_ge in E. lia.
Qed.

Lemma backslash_u_plain (n : N) : Forall plain_ascii (backslash_u n).
Proof.
  unfold backslash_u, hex4. plain_chars.
  repeat (apply Forall_cons;
          [apply hexdigit_plain; apply N.mod_lt; discriminate|]).
  apply Forall_nil.
Qed.

Lemma escape_char_plain (c : N) : Forall plain_ascii (escape_char c).
Proof.
  unfold escape_char.
  destruct (c =? 34)%N; [plain_chars|].
  destruct (c =? 92)%N; [plain_chars|].
  destruct (c =? 10)%N; [plain_chars|].
  destruct (c =? 13)%N; [plain_chars|].
  destruct (c =? 9)%N; [plain_chars|].
  destruct (c =? 8)%N; [plain_chars|].
  destruct (c =? 12)%N; [plain_chars|].
  destruct ((32 <=? c)%N && (c <=? 126)%N) eqn:E.
  - apply andb_true_iff in E as [H1 H2]. apply N.leb_le in H1, H2.
    apply Forall_cons; [unfold plain_ascii; lia | apply Forall_nil].
  - destruct (c <? 65536)%N; [apply backslash_u_plain|].
    apply Forall_app. split; apply backslash_u_plain.
Qed.

Lemma encode_basestring_ascii_plain (s : str) :
  Forall plain_ascii (encode_basestring_ascii s).
Proof.
  unfold encode_basestring_ascii.
  apply Forall_cons; [unfold plain_ascii; lia|].
  apply Forall_app. split.
  - apply Forall_flat_map. apply Forall_forall. intros c _.
    apply escape_char_plain.
  - plain_chars.
Qed.

Lemma join_plain (sep : str) (parts : list str) :
  Forall plain_ascii sep ->
  Forall (Forall plain_ascii) parts ->
  Forall plain_ascii (join sep parts).
Proof.
  intros Hsep. induction 1 as [|p ps Hp Hps IH]; simpl; [constructor|].
  destruct ps as [|q ps]; [exact Hp|].
  apply Forall_app. split; [exact Hp|].
  apply Forall_app. split; [exact Hsep | exact IH].
Qed.

Lemma newline_indent_plain (level : nat) : Forall plain_ascii (newline_indent level).
Proof.
  unfold newline_indent. apply Forall_cons; [left; reflexivity|].
  apply Forall_forall. intros c Hc. apply repeat_spec in Hc. subst.
  unfold plain_ascii. lia.
Qed.

Lemma decimal_plain (n : N) : Forall plain_ascii (decimal n).
Proof.
  eapply Forall_impl; [|apply decimal_digits].
  unfold is_digit, plain_ascii. intros c Hc. lia.
Qed.

Lemma lit_plain_separator (level : nat) :
  Forall plain_ascii (lit "," ++ newline_indent level).
Proof.
  apply Forall_app. split; [|apply newline_indent_plain].
  unfold lit. simpl. plain_chars.
Qed.

(** Whatever the strings of a value hold, the text [json.dumps] gives for
    it consists of printable ASCII characters and line feeds. *)
Lemma dumps_is_ascii (v : json) : Forall plain_ascii (dumps v).
Proof.
  unfold dumps. generalize 0.
  induction v as [n|s|items IH|fields IH] using json_induction; intros level;
    simpl.
  - apply decimal_plain.
  - apply encode_basestring_ascii_plain.
  - destruct items as [|x items]; [unfold lit; simpl; plain_chars|].
    change (Forall plain_ascii
              (lit "[" ++ newline_indent (S level) ++
               join (lit "," ++ newline_indent (S level))
                    (map (iterencode (S level)) (x :: items)) ++
               newline_indent level ++ lit "]")).
    repeat (apply Forall_app; split);
      try apply newline_indent_plain;
      try solve [unfold lit; simpl; plain_chars].
    apply join_plain; [apply lit_plain_separator|].
    apply Forall_forall. intros p Hp.
    apply in_map_iff in Hp as [y [<- Hy]].
    rewrite Forall_forall in IH. now apply IH.
  - destruct fields as [|x fields]; [unfold lit; simpl; plain_chars|].
    change (Forall plain_ascii
              (lit "{" ++ newline_indent (S level) ++
               join (lit "," ++ newline_indent (S level))
                    (map (fun kv => encode_basestring_ascii (fst kv) ++
                                    lit ": " ++ iterencode (S level) (snd kv))
                         (x :: fields)) ++
               newline_indent level ++ lit "}")).
    repeat (apply Forall_app; split);
      try apply newline_indent_plain;
      try solve [unfold lit; simpl; plain_chars].
    apply join_plain; [apply lit_plain_separator|].
    apply Forall_forall. intros p Hp.
    apply in_map_iff in Hp as [kv [<- Hkv]].
    apply Forall_app. split; [apply encode_basestring_ascii_plain|].
    apply Forall_app. split; [unfold lit; simpl; plain_chars|].
    rewrite Forall_forall in IH. now apply IH.
Qed.


(** ** Console markup

    [render] raises for closing tags only: a text without [/] renders, and
    so does a text between a tag and its closing tag when it holds no
    bracket to open and no backslash. *)

Lemma mem_false_In (c : N) (s : str) : mem c s = false -> ~ In c s.
Proof.
  unfold mem. induction s as [|x s IH]; simpl; [tauto|].
  intros H. apply orb_false_iff in H as [Hx Hs]. apply N.eqb_neq in Hx.
  intros [E|E]; [congruence | now apply IH].
Qed.

Lemma skipn_In {A} (n : nat) (l : list A) (x : A) : In x (skipn n l) -> In x l.
Proof.
  revert l; induction n as [|n IH]; intros [|y l]; simpl; auto.
Qed.

(** The text of a match begins with one of the characters a tag begins
    with, which is a character of the text that was searched. *)
Lemma match_tag_head (s text : str) (escapes : nat) :
  Rich.match_tag s = Some (escapes, text) ->
  exists c t, text = c :: t /\ In c s /\ Rich.tag_start c = true.
Proof.
  unfold Rich.match_tag.
  destruct (skipn (Rich.backslashes s) s) as [|b [|c s']] eqn:E; try discriminate.
  destruct ((b =? 91)%N && Rich.tag_start c) eqn:Hb; [|discriminate].
  destruct (Rich.tag_text s') as [t|]; [|discriminate].
  intros H; injection H as _ <-. exists c, t. split; [reflexivity|].
  apply andb_true_iff in Hb as [_ Hc]. split; [|exact Hc].
  apply skipn_In with (n := Rich.backslashes s). rewrite E. right. now left.
Qed.

Lemma make_tag_name (position : nat) (c : N) (t : str) :
  Rich.tag_start c = true ->
  exists rest, Rich.tag_name (Rich.make_tag position (c :: t)) = c :: rest.
Proof.
  intros Hc. unfold Rich.make_tag. simpl.
  destruct (N.eqb c 61) eqn:E.
  - apply N.eqb_eq in E. subst c. discriminate.
  - eexists. reflexivity.
Qed.

(** The names of the tags of a text begin with characters of the text. *)
Lemma parse_names (s : str) (skip position : nat) :
  Forall (fun tag => exists c rest, Rich.tag_name tag = c :: rest /\ In c s)
         (Rich.parse skip position s).
Proof.
  revert skip position.
  induction s as [|x s IH]; intros skip position; simpl; [constructor|].
  assert (Hrec : forall k q,
             Forall (fun tag => exists c rest,
                         Rich.tag_name tag = c :: rest /\ In c (x :: s))
                    (Rich.parse k q s)).
  { intros k q. eapply Forall_impl; [|apply (IH k q)].
    simpl. intros tag [c [rest [Hn Hin]]]. exists c, rest. auto. }
  destruct skip as [|n]; [|apply Hrec].
  destruct (Rich.match_tag (x :: s)) as [[escapes text]|] eqn:Hm; [|apply Hrec].
  destruct (Nat.even escapes); [|apply Hrec].
  constructor; [|apply Hrec].
  destruct (@match_tag_head _ _ _ Hm) as [c [t [-> [Hin Hc]]]].
  destruct (@make_tag_name (position + escapes) c t Hc) as [rest Hrest].
  exists c, rest. auto.
Qed.

Section MarkupFacts.

Variable normalize : str -> str.
Variable meta_error : str -> option str.

Local Abbreviation render := (Rich.render normalize meta_error).
Local Abbreviation render_tags := (Rich.render_tags normalize meta_error).

(** Opening tags raise nothing. *)
Lemma render_tags_opening (tags : list Rich.Tag) :
  Forall (fun tag => exists c rest, Rich.tag_name tag = c :: rest /\ c <> 47%N) tags ->
  forall stack, render_tags tags stack = None.
Proof.
  induction 1 as [|tag tags [c [rest [Hn Hc]]] _ IH]; intros stack; simpl;
    [reflexivity|].
  rewrite Hn. apply N.eqb_neq in Hc. rewrite Hc. apply IH.
Qed.

(** A text without [/] renders: it has no closing tag. *)
Lemma render_slash_free (s : str) : mem slash s = false -> render s = None.
Proof.
  intros H. unfold Rich.render. destruct (mem 91 s); [|reflexivity].
  apply render_tags_opening.
  eapply Forall_impl; [|apply parse_names].
  simpl. intros tag [c [rest [Hn Hin]]]. exists c, rest. split; [exact Hn|].
  intros ->. exact (@mem_false_In _ _ H Hin).
Qed.

End MarkupFacts.

Section WrappedMarkup.

Variable normalize : str -> str.
Variable meta_error : str -> option str.

Local Abbreviation render := (Rich.render normalize meta_error).

(** No match begins in a plain text. *)
Lemma parse_plain (body rest : str) (position : nat) :
  Rich.plain body = true ->
  Rich.parse 0 position (body ++ rest)
  = Rich.parse 0 (position + length body) rest.
Proof.
  revert position; induction body as [|c body IH]; intros position H; simpl.
  - now rewrite Nat.add_0_r.
  - simpl in H. apply andb_true_iff in H as [Hc Hb].
    apply andb_true_iff in Hc as [H91 H92].
    apply negb_true_iff in H91, H92.
    assert (Hm : Rich.match_tag (c :: body ++ rest) = None).
    { unfold Rich.match_tag. simpl. rewrite H92. simpl. rewrite H91.
      destruct (body ++ rest); reflexivity. }
    rewrite Hm, IH by exact Hb. f_equal. lia.
Qed.

(** The characters of a match are passed over. *)
Lemma parse_skip (passed rest : str) (position : nat) :
  Rich.parse (length passed) position (passed ++ rest)
  = Rich.parse 0 (position + length passed) rest.
Proof.
  revert position; induction passed as [|c passed IH]; intros position; simpl.
  - now rewrite Nat.add_0_r.
  - rewrite IH. f_equal. lia.
Qed.

Lemma tag_text_closed (t rest : str) :
  forallb (fun c => negb (c =? 93)%N && negb (c =? 91)%N) t = true ->
  Rich.tag_text (t ++ 93%N :: rest) = Some t.
Proof.
  induction t as [|c t IH]; simpl; intros H; [reflexivity|].
  apply andb_true_iff in H as [Hc Ht]. apply andb_true_iff in Hc as [H93 H91].
  apply negb_true_iff in H93, H91. rewrite H93, H91, IH by exact Ht.
  reflexivity.
Qed.

(** A tag in brackets is found where it stands. *)
Lemma parse_tag (c : N) (t rest : str) (position : nat) :
  Rich.tag_start c = true ->
  forallb (fun c => negb (c =? 93)%N && negb (c =? 91)%N) t = true ->
  Rich.parse 0 position (91%N :: (c :: t) ++ 93%N :: rest)
  = Rich.make_tag position (c :: t)
    :: Rich.parse 0 (position + length (c :: t) + 2) rest.
Proof.
  intros Hc Ht.
  change (Rich.parse 0 position (91%N :: (c :: t) ++ 93%N :: rest))
    with (match Rich.match_tag (91%N :: (c :: t) ++ 93%N :: rest) with
          | Some (escapes, text) =>
              let found := Rich.parse (escapes + S (length text)) (S position)
                                      ((c :: t) ++ 93%N :: rest) in
              if Nat.even escapes
              then Rich.make_tag (position + escapes) text :: found
              else found
          | None => Rich.parse 0 (S position) ((c :: t) ++ 93%N :: rest)
          end).
  unfold Rich.match_tag.
  change (Rich.backslashes (91%N :: (c :: t) ++ 93%N :: rest)) with 0.
  cbn [skipn app]. change (91 =? 91)%N with true. rewrite Hc. cbn [andb].
  rewrite tag_text_closed by exact Ht. cbn [Nat.even Nat.add].
  rewrite Nat.add_0_r. f_equal.
  transitivity (Rich.parse (length ((c :: t) ++ [93%N])) (S position)
                           (((c :: t) ++ [93%N]) ++ rest)).
  { f_equal; [rewrite length_app; simpl; lia | rewrite <- app_assoc; reflexivity]. }
  rewrite parse_skip. f_equal. rewrite length_app. simpl. lia.
Qed.

Lemma partition_without (sep : N) (s : str) :
  mem sep s = false -> partition sep s = (s, None).
Proof.
  unfold mem. induction s as [|c s IH]; simpl; [reflexivity|].
  intros H. apply orb_false_iff in H as [Hc Hs].
  rewrite N.eqb_sym in Hc. rewrite Hc, IH by exact Hs. reflexivity.
Qed.

Lemma strip_small_letters (s : str) : Rich.small_letters s = true -> strip s = s.
Proof.
  intros H. unfold strip.
  assert (Hs : forall l, Rich.small_letters l = true -> lstrip l = l).
  { intros [|c l]; [reflexivity|]. simpl. intros Hl.
    apply andb_true_iff in Hl as [Hc _]. apply andb_true_iff in Hc as [H1 H2].
    apply N.leb_le in H1, H2.
    replace (is_space c) with false; [reflexivity|].
    symmetry. unfold is_space.
    repeat (apply orb_false_iff; split);
      try (apply andb_false_iff; (left; apply N.leb_gt; lia) || (right; apply N.leb_gt; lia));
      try (apply N.eqb_neq; lia). }
  rewrite (Hs s H). rewrite Hs; [apply rev_involutive|].
  unfold Rich.small_letters in *. rewrite forallb_forall in *.
  intros c Hc. apply H. now apply in_rev.
Qed.

Lemma mem_app (c : N) (a b : str) : mem c (a ++ b) = mem c a || mem c b.
Proof. unfold mem. apply existsb_app. Qed.

Lemma small_letters_facts (s : str) :
  Rich.small_letters s = true ->
  forallb (fun c => negb (c =? 93)%N && negb (c =? 91)%N) s = true /\
  mem 61 s = false /\
  forallb Rich.tag_start s = true /\
  forallb (fun c => negb (c =? 47)%N) s = true.
Proof.
  unfold Rich.small_letters, mem.
  induction s as [|c s IH]; [simpl; auto|]. cbn [forallb existsb].
  intros H. apply andb_true_iff in H as [Hc Hs].
  destruct (IH Hs) as [H1 [H2 [H3 H4]]]. rewrite H1, H2, H3, H4.
  apply andb_true_iff in Hc as [Ha Hz]. apply N.leb_le in Ha, Hz.
  unfold Rich.tag_start.
  replace (c =? 93)%N with false by (symmetry; apply N.eqb_neq; lia).
  replace (c =? 91)%N with false by (symmetry; apply N.eqb_neq; lia).
  replace (61 =? c)%N with false by (symmetry; apply N.eqb_neq; lia).
  replace (c =? 47)%N with false by (symmetry; apply N.eqb_neq; lia).
  replace (97 <=? c)%N with true by (symmetry; apply N.leb_le; lia).
  replace (c <=? 122)%N with true by (symmetry; apply N.leb_le; lia).
  simpl. auto.
Qed.

(** A plain text between a tag of small letters and its closing tag
    renders, after a plain text. *)
Lemma wrapped_renders (pre tag body : str) :
  Rich.plain pre = true ->
  Rich.small_letters tag = true ->
  tag <> [] ->
  Rich.plain body = true ->
  render (pre ++ 91%N :: tag ++ 93%N :: body ++ 91%N :: 47%N :: tag ++ [93%N]) = None.
Proof.
  intros Hpre Htag Hne Hbody. unfold Rich.render.
  rewrite mem_app. replace (mem 91 (91%N :: tag ++ _)) with true by reflexivity.
  rewrite orb_true_r.
  destruct tag as [|c t]; [contradiction|].
  destruct (small_letters_facts _ Htag) as [Hclosed [Heq [Hstart Hslash]]].
  simpl in Hclosed, Hstart, Hslash.
  apply andb_true_iff in Hclosed as [_ Hclosed].
  apply andb_true_iff in Hstart as [Hc _].
  apply andb_true_iff in Hslash as [Hc47 _]. apply negb_true_iff in Hc47.
  rewrite parse_plain by exact Hpre.
  rewrite (@parse_tag c t _ _ Hc Hclosed).
  rewrite parse_plain by exact Hbody.
  change (91%N :: 47%N :: (c :: t) ++ [93%N])
    with (91%N :: (47%N :: c :: t) ++ 93%N :: []).
  rewrite (@parse_tag 47%N (c :: t) [] _ eq_refl)
    by (destruct (small_letters_facts _ Htag) as [H _]; exact H).
  unfold Rich.make_tag.
  rewrite (@partition_without 61%N (c :: t) Heq).
  rewrite (@partition_without 61%N (47%N :: c :: t)) by exact Heq.
  cbn [Rich.parse Rich.render_tags Rich.tag_name Rich.tag_parameters fst snd].
  rewrite Hc47. change (47 =? 47)%N with true. cbv iota.
  rewrite (strip_small_letters _ Htag).
  cbn [Rich.pop_style fst]. rewrite str_eqb_refl.
  unfold Rich.close_error. cbn [fst snd].
  destruct (normalize (c :: t)); reflexivity.
Qed.

Lemma plain_digits (s : str) : Forall is_digit s -> Rich.plain s = true.
Proof.
  unfold Rich.plain. induction 1 as [|c s Hc _ IH]; simpl; [reflexivity|].
  rewrite IH. unfold is_digit in Hc.
  replace (c =? 91)%N with false by (symmetry; apply N.eqb_neq; lia).
  replace (c =? 92)%N with false by (symmetry; apply N.eqb_neq; lia).
  reflexivity.
Qed.

Lemma plain_app (a b : str) : Rich.plain (a ++ b) = Rich.plain a && Rich.plain b.
Proof. apply forallb_app. Qed.

Lemma plain_format_thousands (n : N) : Rich.plain (format_thousands n) = true.
Proof.
  unfold Rich.plain. apply forallb_forall. intros c Hc.
  destruct (c =? comma)%N eqn:E.
  - apply N.eqb_eq in E. subst c. reflexivity.
  - assert (Hin : In c (decimal n)).
    { rewrite <- format_thousands_digits. apply filter_In. now rewrite E. }
    pose proof (decimal_digits n) as Hd. rewrite Forall_forall in Hd.
    specialize (Hd c Hin). unfold is_digit in Hd.
    replace (c =? 91)%N with false by (symmetry; apply N.eqb_neq; lia).
    replace (c =? 92)%N with false by (symmetry; apply N.eqb_neq; lia).
    reflexivity.
Qed.

(** The texts of the program that hold nothing of its input render. *)
Ltac wrapped pre tag body :=
  match goal with
  | |- render ?line = None =>
      replace line
        with (pre ++ 91%N :: tag ++ 93%N :: body ++ 91%N :: 47%N :: tag ++ [93%N]);
      [ apply wrapped_renders; [reflexivity | reflexivity | discriminate |]
      | simpl; rewrite <- ?app_assoc; reflexivity ]
  end.

Lemma about_to_process_renders (n : nat) : render (about_to_process n) = None.
Proof.
  wrapped (@nil N) (lit "yellow")
          ([9888%N; 65039%N] ++ lit "  About to process "
           ++ decimal (N.of_nat n) ++ lit " files").
  rewrite !plain_app, (plain_digits (decimal_digits _)). reflexivity.
Qed.

Lemma aborted_by_user_renders : render aborted_by_user = None.
Proof. wrapped (@nil N) (lit "red") (lit "Aborted by user"). reflexivity. Qed.

Lemma dry_run_banner_renders : render dry_run_banner = None.
Proof.
  wrapped [10%N] (lit "cyan")
          ([128269%N] ++ lit " DRY RUN - No files will be modified").
  reflexivity.
Qed.

Lemma some_files_failed_renders : render some_files_failed = None.
Proof.
  wrapped [10%N] (lit "red") ([9888%N; 65039%N] ++ lit "  Some files failed:").
  reflexivity.
Qed.

Lemma successfully_processed_renders (n : nat) :
  render (successfully_processed n) = None.
Proof.
  wrapped (@nil N) (lit "green")
          ([10024%N] ++ lit " Successfully processed "
           ++ decimal (N.of_nat n) ++ lit " file(s)").
  rewrite !plain_app, (plain_digits (decimal_digits _)). reflexivity.
Qed.

Lemma tip_line_renders : render tip_line = None.
Proof.
  wrapped (@nil N) (lit "yellow")
          (lit "Tip: Check the path exists and you have read permissions").
  reflexivity.
Qed.

Lemma total_line_renders (items : list DirectoryEntry) :
  render (total_line items) = None.
Proof.
  wrapped [10%N] (lit "dim")
          (lit "Total size: " ++ format_thousands (total_size items) ++ lit " bytes").
  rewrite !plain_app, plain_format_thousands. reflexivity.
Qed.

(** The text column renders for the description the task is added with,
    and for the description of a file, whose name holds no separator. *)
Lemma processing_files_renders : render (text_column processing_files) = None.
Proof. apply render_slash_free. reflexivity. Qed.

Lemma text_column_renders (mark : N) (nm : str) :
  mark <> slash ->
  mem slash nm = false ->
  render (text_column ([mark; 32%N] ++ nm)) = None.
Proof.
  intros Hmark Hnm. apply render_slash_free. unfold text_column.
  rewrite mem_app.
  replace (mem slash (lit "[progress.description]")) with false by reflexivity.
  change ([mark; 32%N] ++ nm) with (mark :: 32%N :: nm).
  unfold mem in *. cbn [existsb orb]. rewrite Hnm.
  replace (slash =? mark)%N with false by (symmetry; apply N.eqb_neq; congruence).
  reflexivity.
Qed.

End WrappedMarkup.
Section Properties.

#[local] Set Default Proof Using "Type".

Variable ucd_toupper_full : N -> list N.
Variable ucd_tolower_full : N -> list N.
Variable handle_capital_sigma : str -> nat -> N.
Variable fnmatch : str -> str -> bool.
Variable written_stat : Path -> str -> N * Z.
Variable cwd : Path.
Variable name_too_long : str -> bool.
Variable path_str : Path -> str.
Variable repr : str -> str.
Variable fromtimestamp_error : Z -> option exn.
Variable style_normalize : str -> str.
Variable meta_error : str -> option str.

Local Abbreviation ToUpperFull := (PyUnicode_ToUpperFull ucd_toupper_full).
Local Abbreviation ToLowerFull := (PyUnicode_ToLowerFull ucd_tolower_full).
Local Abbreviation upper := (upper ucd_toupper_full).
Local Abbreviation lower := (lower ucd_tolower_full handle_capital_sigma).
Local Abbreviation transformed :=
  (transformed ucd_toupper_full ucd_tolower_full handle_capital_sigma).
Local Abbreviation lookup_errno := (lookup_errno name_too_long).
Local Abbreviation stat_errno := (stat_errno name_too_long).
Local Abbreviation path_exists := (path_exists name_too_long).
Local Abbreviation path_is_dir := (path_is_dir name_too_long).
Local Abbreviation path_is_file := (path_is_file name_too_long).
Local Abbreviation read_text := (read_text name_too_long).
Local Abbreviation process_file_core :=
  (process_file_core ucd_toupper_full ucd_tolower_full handle_capital_sigma
                     name_too_long path_str).
Local Abbreviation glob_yields := (glob_yields fnmatch name_too_long).
Local Abbreviation glob := (glob fnmatch name_too_long).
Local Abbreviation entry_of := (entry_of name_too_long fromtimestamp_error).
Local Abbreviation collect := (collect name_too_long fromtimestamp_error).
Local Abbreviation list_items_core :=
  (list_items_core fnmatch name_too_long path_str fromtimestamp_error).
Local Abbreviation write_text := (write_text written_stat name_too_long).
Local Abbreviation str_exn := (str_exn path_str repr).
Local Abbreviation markup_error := (markup_error style_normalize meta_error).
Local Abbreviation renders := (renders style_normalize meta_error).
Local Abbreviation render_markup := (render_markup style_normalize meta_error).
Local Abbreviation console_print := (console_print style_normalize meta_error).
Local Abbreviation process :=
  (process ucd_toupper_full ucd_tolower_full handle_capital_sigma written_stat cwd
           name_too_long path_str repr style_normalize meta_error).

(** ** Looking a path up *)

(** A path without a name that is too long either is found or fails with
    one of the two errors that [exists] takes for an absence. *)
Lemma lookup_errno_ignored (r : node) (p : Path) :
  Forall (fun c => name_too_long c = false) p ->
  forall acc e, lookup_errno r acc p = Some e -> ignore_error e = true.
Proof.
  induction 1 as [|c p Hc _ IH]; intros acc e; simpl; [discriminate|].
  destruct (get r acc) as [[? ? ?|? ? es]|].
  - intros H; injection H as <-. reflexivity.
  - destruct (eqb c (lit "..")); [apply IH|].
    destruct (lookup_entry c es); [apply IH|].
    rewrite Hc. intros H; injection H as <-. reflexivity.
  - intros H; injection H as <-. reflexivity.
Qed.

Lemma stat_errno_ignored (r : node) (p : Path) :
  Forall (fun c => name_too_long c = false) p ->
  ignore_error (stat_errno r p) = true.
Proof.
  intros H. unfold Cli.stat_errno.
  destruct (lookup_errno r [] p) as [e|] eqn:E; [|reflexivity].
  exact (@lookup_errno_ignored r p H [] e E).
Qed.

(** ** The transform operation *)

(** What [process_file_core] does, by what the path denotes. *)
Lemma process_file_core_run (filepath : Path) (t : str) (w : world) :
  process_file_core filepath t w =
  match resolve (root w) filepath with
  | Some (File _ _ content) =>
      (Ok {| original_size := length content;
             processed_size := length (transformed t content);
             transform := t;
             result := transformed t content |}, w)
  | Some (Dir _ _ _) => (Raise (OSError EISDIR filepath), w)
  | None =>
      if ignore_error (stat_errno (root w) filepath)
      then (Raise (FileNotFoundError (lit "File not found: " ++ path_str filepath)), w)
      else (Raise (OSError (stat_errno (root w) filepath) filepath), w)
  end.
Proof.
  unfold Cli.process_file_core, bind, lift, Cli.path_exists, stat_or,
    Cli.read_text, raise, ret.
  destruct (resolve (root w) filepath) as [[sz mt c|sz mt es]|] eqn:E; simpl;
    rewrite ?E; try reflexivity.
  destruct (ignore_error (stat_errno (root w) filepath)); reflexivity.
Qed.

Lemma length_upper_single (s : str) :
  Forall (fun c => length (ToUpperFull c) = 1) s -> length (upper s) = length s.
Proof.
  unfold Cli.upper.
  induction 1 as [|c s Hc _ IH]; simpl; [reflexivity|].
  rewrite length_app, Hc, IH. reflexivity.
Qed.

Lemma length_do_lower_single (s0 : str) (rest : str) (i : nat) :
  Forall (fun c => length (ToLowerFull c) = 1) rest ->
  length (do_lower ucd_tolower_full handle_capital_sigma s0 i rest) = length rest.
Proof.
  intros H. revert i.
  induction H as [|c s Hc _ IH]; intros i; simpl; [reflexivity|].
  rewrite length_app, IH. unfold lower_ucs4.
  destruct (c =? 931)%N; simpl; [reflexivity | now rewrite Hc].
Qed.

Lemma length_lower_single (s : str) :
  Forall (fun c => length (ToLowerFull c) = 1) s -> length (lower s) = length s.
Proof. apply length_do_lower_single. Qed.

(** ASCII characters have one-character case mappings. *)
Lemma ascii_upper_single (c : N) : (c < 128)%N -> length (ToUpperFull c) = 1.
Proof.
  intros H. unfold PyUnicode_ToUpperFull, Latin1.toupper_full.
  replace (c <? 256)%N with true by (symmetry; apply N.ltb_lt; lia).
  destruct ((97 <=? c)%N && (c <=? 122)%N); [reflexivity|].
  replace (c =? 181)%N with false by (symmetry; apply N.eqb_neq; lia).
  replace (c =? 223)%N with false by (symmetry; apply N.eqb_neq; lia).
  replace (224 <=? c)%N with false by (symmetry; apply N.leb_gt; lia).
  replace (c =? 255)%N with false by (symmetry; apply N.eqb_neq; lia).
  reflexivity.
Qed.

Lemma ascii_lower_single (c : N) : (c < 128)%N -> length (ToLowerFull c) = 1.
Proof.
  intros H. unfold PyUnicode_ToLowerFull, Latin1.tolower_full.
  replace (c <? 256)%N with true by (symmetry; apply N.ltb_lt; lia).
  destruct ((65 <=? c)%N && (c <=? 90)%N); [reflexivity|].
  destruct ((192 <=? c)%N && (c <=? 222)%N && negb (c =? 215)%N); reflexivity.
Qed.

(** C2: for a file whose text is [C] the transform operation returns, with
    the world untouched, a result whose text is [C] uppercased for ["upper"],
    [C] lowercased for ["lower"] and [C] itself for every other transform
    name; no transform name makes it raise. *)
Theorem transform_result_text (filepath : Path) (t : str) (w : world)
        (sz : N) (mt : Z) (C : str) :
  resolve (root w) filepath = Some (File sz mt C) ->
  exists r,
    process_file_core filepath t w = (Ok r, w) /\
    transform r = t /\
    (t = lit "upper" -> result r = upper C) /\
    (t = lit "lower" -> result r = lower C) /\
    (t <> lit "upper" -> t <> lit "lower" ->
     result r = C /\ processed_size r = length C /\ original_size r = length C).
Proof.
  intros Hfile. rewrite process_file_core_run, Hfile.
  eexists; split; [reflexivity|]. simpl. unfold Cli.transformed.
  split; [reflexivity|]. repeat split.
  - intros ->. reflexivity.
  - intros ->. reflexivity.
  - apply str_eqb_neq in H, H0. now rewrite H, H0.
  - apply str_eqb_neq in H, H0. now rewrite H, H0.
Qed.

(** C10: in every result the transform operation returns, [original_size]
    is the length of the text that was read and [processed_size] the length
    of [result]; the two sizes agree exactly when the transform applied
    keeps the length of that text. *)
Theorem transform_result_sizes (filepath : Path) (t : str) (w w' : world)
        (r : TransformResult) :
  process_file_core filepath t w = (Ok r, w') ->
  exists sz mt C,
    resolve (root w) filepath = Some (File sz mt C) /\
    result r = transformed t C /\
    original_size r = length C /\
    processed_size r = length (result r) /\
    (processed_size r = original_size r <->
     length (transformed t C) = length C).
Proof.
  rewrite process_file_core_run.
  destruct (resolve (root w) filepath) as [[sz mt C|sz mt es]|];
    try discriminate.
  - intros H. injection H as <- _.
    exists sz, mt, C. simpl. repeat split; auto.
  - destruct (ignore_error (stat_errno (root w) filepath)); discriminate.
Qed.

(** C1 (amended): for a file whose text is [C], [original_size] is
    [len(C)], whatever the text and the transform are; under ["upper"] or
    ["lower"], when every character of [C] has a case mapping that is one
    character long, and in particular when [C] is ASCII, [processed_size]
    is [len(C)] as well. *)
Theorem case_transform_sizes (filepath : Path) (t : str) (w : world)
        (sz : N) (mt : Z) (C : str) :
  resolve (root w) filepath = Some (File sz mt C) ->
  exists r,
    process_file_core filepath t w = (Ok r, w) /\
    original_size r = length C /\
    ((t = lit "upper" /\ Forall (fun c => length (ToUpperFull c) = 1) C) \/
     (t = lit "lower" /\ Forall (fun c => length (ToLowerFull c) = 1) C) ->
     processed_size r = original_size r) /\
    (t = lit "upper" \/ t = lit "lower" ->
     Forall is_ascii C ->
     processed_size r = original_size r).
Proof.
  intros Hfile. rewrite process_file_core_run, Hfile.
  eexists; split; [reflexivity|]. simpl. split; [reflexivity|].
  unfold Cli.transformed.
  assert (Hsingle :
            (t = lit "upper" /\ Forall (fun c => length (ToUpperFull c) = 1) C) \/
            (t = lit "lower" /\ Forall (fun c => length (ToLowerFull c) = 1) C) ->
            length (if eqb t (lit "upper") then upper C
                    else if eqb t (lit "lower") then lower C else C) = length C).
  { intros [[-> HC]|[-> HC]]; simpl.
    - now apply length_upper_single.
    - now apply length_lower_single. }
  split; [exact Hsingle|].
  intros Ht Hascii. apply Hsingle.
  assert (Hup : Forall (fun c => length (ToUpperFull c) = 1) C).
  { eapply Forall_impl; [|exact Hascii]. intros c Hc. now apply ascii_upper_single. }
  assert (Hlow : Forall (fun c => length (ToLowerFull c) = 1) C).
  { eapply Forall_impl; [|exact Hascii]. intros c Hc. now apply ascii_lower_single. }
  destruct Ht; [left | right]; auto.
Qed.

(** The transform operation never changes the world. *)
Lemma process_file_core_reads_only (filepath : Path) (t : str) (w : world) :
  snd (process_file_core filepath t w) = w.
Proof.
  rewrite process_file_core_run.
  destruct (resolve (root w) filepath) as [[? ? ?|? ? ?]|]; try reflexivity.
  destruct (ignore_error (stat_errno (root w) filepath)); reflexivity.
Qed.

(** C9 (amended): on a path that does not exist, the transform operation
    and the listing operation leave the world, its file system and its
    record of writes, as it was; they raise [FileNotFoundError] when no
    component of the path is a name too long for the file system, and the
    error [ENAMETOOLONG] of the operating system, which is no
    [FileNotFoundError], when the lookup stops at such a name.  (In the
    tree every directory can be searched, so that a lookup fails for no
    other reason than the two of [exists] and this one.) *)
Theorem missing_path_not_found (p : Path) (t pattern : str) (w : world) :
  exists_ (root w) p = false ->
  snd (process_file_core p t w) = w /\
  snd (list_items_core p pattern w) = w /\
  (Forall (fun c => name_too_long c = false) p ->
   process_file_core p t w
   = (Raise (FileNotFoundError (lit "File not found: " ++ path_str p)), w) /\
   list_items_core p pattern w
   = (Raise (FileNotFoundError (lit "Directory not found: " ++ path_str p)), w)) /\
  (stat_errno (root w) p = ENAMETOOLONG ->
   process_file_core p t w = (Raise (OSError ENAMETOOLONG p), w) /\
   list_items_core p pattern w = (Raise (OSError ENAMETOOLONG p), w) /\
   is_file_not_found (OSError ENAMETOOLONG p) = false).
Proof.
  intros H. unfold exists_ in H.
  destruct (resolve (root w) p) as [n|] eqn:E; [discriminate|].
  assert (Hlist : list_items_core p pattern w =
                  if ignore_error (stat_errno (root w) p)
                  then (Raise (FileNotFoundError
                                 (lit "Directory not found: " ++ path_str p)), w)
                  else (Raise (OSError (stat_errno (root w) p) p), w)).
  { unfold Cli.list_items_core, bind, lift, Cli.path_exists, stat_or. rewrite E.
    destruct (ignore_error (stat_errno (root w) p)); reflexivity. }
  rewrite process_file_core_run, E, Hlist.
  split; [destruct (ignore_error (stat_errno (root w) p)); reflexivity|].
  split; [destruct (ignore_error (stat_errno (root w) p)); reflexivity|].
  split.
  - intros Hshort. rewrite (stat_errno_ignored (root w) Hshort). auto.
  - intros ->. auto.
Qed.

(** ** The listing operation *)

(** The entry built for a path, by the node the path denotes. *)
Lemma entry_of_ok (path : Path) (w w' : world) (e : DirectoryEntry) :
  entry_of path w = (Ok e, w') ->
  w' = w /\
  exists n,
    resolve (root w) path = Some n /\
    entry_name e = name path /\
    entry_type e = (if is_dir_node n then lit "dir" else lit "file") /\
    entry_size e = match n with File sz _ _ => sz | Dir _ _ _ => 0%N end.
Proof.
  unfold Cli.entry_of, bind, lift, ret, Cli.path_is_dir, Cli.path_is_file,
    stat_or, stat, fromtimestamp, raise.
  destruct (resolve (root w) path) as [[sz mt c|sz mt es]|] eqn:E; simpl;
    rewrite ?E; simpl.
  - destruct (fromtimestamp_error mt); [discriminate|].
    intros H; injection H as <- <-. split; [reflexivity|].
    eexists; (split; [reflexivity|]); simpl; auto.
  - destruct (fromtimestamp_error mt); [discriminate|].
    intros H; injection H as <- <-. split; [reflexivity|].
    eexists; (split; [reflexivity|]); simpl; auto.
  - destruct (ignore_error (stat_errno (root w) path)); simpl; rewrite ?E;
      discriminate.
Qed.

Lemma collect_ok (paths : list Path) (acc items : list DirectoryEntry) (w w' : world) :
  collect paths acc w = (Ok items, w') ->
  w' = w /\
  exists es, items = acc ++ es /\
             Forall2 (fun p e => entry_of p w = (Ok e, w)) paths es.
Proof.
  revert acc; induction paths as [|p paths IH]; intros acc; simpl.
  - unfold ret. intros H; injection H as <- <-. split; [reflexivity|].
    exists []. rewrite app_nil_r. auto.
  - unfold bind. destruct (entry_of p w) as [[e|err] w1] eqn:He; [|discriminate].
    destruct (entry_of_ok _ _ He) as [-> _].
    intros H. apply IH in H as [-> [es [-> HF]]]. split; [reflexivity|].
    exists (e :: es). rewrite <- app_assoc. simpl. auto.
Qed.

(** A successful listing is the sorted list of the entries of the paths of
    the scan, and leaves the world as it was. *)
Lemma list_items_core_ok (directory : Path) (pattern : str) (w w' : world)
      (items : list DirectoryEntry) :
  list_items_core directory pattern w = (Ok items, w') ->
  w' = w /\
  exists paths es,
    glob directory pattern w = (Ok paths, w) /\
    Forall2 (fun p e => entry_of p w = (Ok e, w)) paths es /\
    items = sorted es.
Proof.
  unfold Cli.list_items_core, Cli.glob, bind, lift, ask_fs, raise, ret.
  destruct (path_exists (root w) directory) as [[|]|err]; simpl; try discriminate.
  destruct (glob_yields (root w) directory pattern) as [paths ending]; simpl.
  destruct (collect paths [] w) as [[es|err] w1] eqn:Hc; [|discriminate].
  apply collect_ok in Hc as [-> [es' [-> HF]]]. simpl.
  destruct ending as [e|]; [discriminate|].
  intros H; injection H as <- <-. split; [reflexivity|].
  exists paths, es'. auto.
Qed.

Lemma insert_sorted_In (x y : DirectoryEntry) (l : list DirectoryEntry) :
  In y (insert_sorted x l) <-> y = x \/ In y l.
Proof.
  induction l as [|z l IH]; simpl.
  - split; intros [H|[]]; left; congruence.
  - destruct (tuple_ltb (sort_key z) (sort_key x)); simpl.
    + destruct IH as [IH1 IH2]. split.
      * intros [H|H]; [auto | destruct (IH1 H); auto].
      * intros [H|[H|H]]; auto.
    + split; intros [H|H];
        [left; congruence | right; exact H | left; congruence | right; exact H].
Qed.

Lemma sorted_In (y : DirectoryEntry) (l : list DirectoryEntry) :
  In y (sorted l) <-> In y l.
Proof.
  induction l as [|x l IH]; simpl; [reflexivity|].
  destruct IH as [IH1 IH2]. split.
  - intros H. apply insert_sorted_In in H as [->|H]; auto.
  - intros [->|H]; apply insert_sorted_In; auto.
Qed.

Lemma sorted_Forall (P : DirectoryEntry -> Prop) (l : list DirectoryEntry) :
  Forall P l -> Forall P (sorted l).
Proof.
  rewrite !Forall_forall. intros H y Hy. apply H. now apply sorted_In.
Qed.

Lemma str_compare_refl (a : str) : compare a a = Eq.
Proof. now apply str_compare_eq. Qed.

Lemma str_le_trans (a b c : str) :
  compare a b <> Gt -> compare b c <> Gt -> compare a c <> Gt.
Proof.
  intros Hab Hbc.
  destruct (compare a b) eqn:Eab; [| |contradiction].
  - apply str_compare_eq in Eab. now subst.
  - destruct (compare b c) eqn:Ebc; [| |contradiction].
    + apply str_compare_eq in Ebc. subst. now rewrite Eab.
    + now rewrite (str_compare_lt_trans _ _ _ Eab Ebc).
Qed.

Lemma by_kind_then_name_trans (a b c : DirectoryEntry) :
  by_kind_then_name a b -> by_kind_then_name b c -> by_kind_then_name a c.
Proof.
  unfold by_kind_then_name.
  intros [Hab|[Eab Nab]] [Hbc|[Ebc Nbc]].
  - left. eapply str_compare_lt_trans; eauto.
  - left. now rewrite <- Ebc.
  - left. now rewrite Eab.
  - right. split; [congruence|]. eapply str_le_trans; eauto.
Qed.

(** The element the sort puts first is not above the other one. *)
Lemma tuple_ltb_false (x y : DirectoryEntry) :
  tuple_ltb (sort_key y) (sort_key x) = false -> by_kind_then_name x y.
Proof.
  unfold tuple_ltb, sort_key, by_kind_then_name; simpl.
  rewrite (str_compare_antisym (entry_type y) (entry_type x)).
  rewrite (str_compare_antisym (entry_name y) (entry_name x)).
  destruct (compare (entry_type y) (entry_type x)) eqn:Et; simpl;
    try discriminate; auto.
  apply str_compare_eq in Et.
  destruct (compare (entry_name y) (entry_name x)); simpl; try discriminate;
    intros _; right; split; auto; discriminate.
Qed.

Lemma tuple_ltb_true (x y : DirectoryEntry) :
  tuple_ltb (sort_key y) (sort_key x) = true -> by_kind_then_name y x.
Proof.
  unfold tuple_ltb, sort_key, by_kind_then_name; simpl.
  destruct (compare (entry_type y) (entry_type x)) eqn:Et; try discriminate; auto.
  apply str_compare_eq in Et.
  destruct (compare (entry_name y) (entry_name x)); try discriminate.
  intros _; right; split; auto; discriminate.
Qed.

Lemma insert_sorted_sorted (x : DirectoryEntry) (l : list DirectoryEntry) :
  StronglySorted by_kind_then_name l ->
  StronglySorted by_kind_then_name (insert_sorted x l).
Proof.
  induction 1 as [|y l Hl IH Hy]; simpl.
  - constructor; constructor.
  - destruct (tuple_ltb (sort_key y) (sort_key x)) eqn:E.
    + constructor; [exact IH|].
      apply Forall_forall. intros z Hz.
      apply insert_sorted_In in Hz as [->|Hz].
      * now apply tuple_ltb_true.
      * rewrite Forall_forall in Hy. auto.
    + apply tuple_ltb_false in E.
      constructor; [constructor; assumption|].
      constructor; [exact E|].
      eapply Forall_impl; [|exact Hy].
      intros z Hz. eapply by_kind_then_name_trans; eauto.
Qed.

Lemma sorted_sorted (l : list DirectoryEntry) :
  StronglySorted by_kind_then_name (sorted l).
Proof.
  induction l as [|x l IH]; simpl; [constructor|].
  now apply insert_sorted_sorted.
Qed.

(** Within one kind the order of the listing is the order of the names. *)
Lemma same_kind_by_name (kind : str) (l : list DirectoryEntry) :
  StronglySorted by_kind_then_name l ->
  Forall (fun e => entry_type e = kind) l ->
  StronglySorted by_name l.
Proof.
  induction 1 as [|x l Hl IH Hx]; intros Hk; [constructor|].
  inversion Hk as [|? ? Kx Kl]; subst.
  constructor; [auto|].
  rewrite Forall_forall in *. intros y Hy.
  destruct (Hx y Hy) as [Hlt|[_ Hn]]; [|exact Hn].
  rewrite (Kl y Hy), str_compare_refl in Hlt. discriminate.
Qed.

(** A list in the order of the listing whose kinds are ["dir"] and ["file"]
    is its directories followed by its files. *)
Lemma sorted_groups (l : list DirectoryEntry) :
  StronglySorted by_kind_then_name l ->
  Forall (fun e => entry_type e = lit "dir" \/ entry_type e = lit "file") l ->
  exists dirs files,
    l = dirs ++ files /\
    Forall (fun e => entry_type e = lit "dir") dirs /\
    Forall (fun e => entry_type e = lit "file") files /\
    StronglySorted by_name dirs /\
    StronglySorted by_name files.
Proof.
  induction 1 as [|x l Hl IH Hx]; intros Hk.
  - exists [], []. repeat split; constructor.
  - inversion Hk as [|? ? Kx Kl]; subst.
    destruct Kx as [Kx|Kx].
    + destruct (IH Kl) as [dirs [files [-> [Hd [Hf [Sd Sf]]]]]].
      exists (x :: dirs), files. repeat split; auto.
      constructor; [exact Sd|].
      rewrite Forall_forall in *. intros y Hy.
      destruct (Hx y (in_or_app _ _ _ (or_introl Hy))) as [Hlt|[_ Hn]];
        [|exact Hn].
      rewrite Kx, (Hd y Hy) in Hlt. discriminate.
    + assert (Hall : Forall (fun e => entry_type e = lit "file") (x :: l)).
      { constructor; [exact Kx|].
        rewrite Forall_forall in *. intros y Hy.
        destruct (Kl y Hy) as [Ky|Ky]; [|exact Ky].
        destruct (Hx y Hy) as [Hlt|[He _]].
        - rewrite Kx, Ky in Hlt. discriminate.
        - rewrite Kx, Ky in He. discriminate. }
      exists [], (x :: l).
      split; [reflexivity|]. split; [constructor|]. split; [exact Hall|].
      split; [constructor|].
      apply (same_kind_by_name (kind := lit "file")); [|exact Hall].
      constructor; assumption.
Qed.

Lemma entries_kinds (paths : list Path) (es : list DirectoryEntry) (w : world) :
  Forall2 (fun p e => entry_of p w = (Ok e, w)) paths es ->
  Forall (fun e => (entry_type e = lit "file" \/ entry_type e = lit "dir") /\
                   (entry_type e = lit "dir" -> entry_size e = 0%N)) es.
Proof.
  induction 1 as [|p e paths es He _ IH]; constructor; [|exact IH].
  apply entry_of_ok in He as [_ [n [_ [_ [Ht Hs]]]]].
  rewrite Ht, Hs. destruct n; simpl; split; auto; discriminate.
Qed.

(** C3: the listing is in ascending order of kind and, within a kind, of
    name, both compared as strings; it is the entries of kind ["dir"], in
    the order of their names, followed by those of kind ["file"], in the
    order of their names. *)
Theorem listing_sorted (directory : Path) (pattern : str) (w w' : world)
        (items : list DirectoryEntry) :
  list_items_core directory pattern w = (Ok items, w') ->
  StronglySorted by_kind_then_name items /\
  exists dirs files,
    items = dirs ++ files /\
    Forall (fun e => entry_type e = lit "dir") dirs /\
    Forall (fun e => entry_type e = lit "file") files /\
    StronglySorted by_name dirs /\
    StronglySorted by_name files.
Proof.
  intros H. apply list_items_core_ok in H as [_ [paths [es [_ [HF ->]]]]].
  pose proof (sorted_sorted es) as HS. split; [exact HS|].
  apply sorted_groups; [exact HS|].
  apply sorted_Forall. eapply Forall_impl; [|exact (entries_kinds HF)].
  simpl. intros e [[Hk|Hk] _]; auto.
Qed.

(** C4 (amended): every entry of the listing has kind ["file"] or ["dir"],
    and every entry of kind ["dir"] has size 0, whatever the size of the
    directory. *)
Theorem listing_kinds (directory : Path) (pattern : str) (w w' : world)
        (items : list DirectoryEntry) :
  list_items_core directory pattern w = (Ok items, w') ->
  Forall (fun e => (entry_type e = lit "file" \/ entry_type e = lit "dir") /\
                   (entry_type e = lit "dir" -> entry_size e = 0%N)) items.
Proof.
  intros H. apply list_items_core_ok in H as [_ [paths [es [_ [HF ->]]]]].
  apply sorted_Forall. exact (entries_kinds HF).
Qed.

Lemma realpath_app (r : node) (p q : Path) (acc : list str) :
  realpath r acc (p ++ q) =
  match realpath r acc p with
  | inr rp => realpath r rp q
  | inl e => inl e
  end.
Proof.
  revert acc; induction p as [|c p IH]; intros acc; simpl; [reflexivity|].
  destruct (get r acc) as [[? ? ?|? ? es]|]; try reflexivity.
  destruct (eqb c (lit "..")); [apply IH|].
  destruct (lookup_entry c es); [apply IH | reflexivity].
Qed.

Lemma lookup_entry_In (nm : str) (es : list (str * node)) (n : node) :
  lookup_entry nm es = Some n -> In nm (map fst es).
Proof.
  induction es as [|[k m] es IH]; simpl; [discriminate|].
  destruct (eqb k nm) eqn:E.
  - apply str_eqb_eq in E. auto.
  - auto.
Qed.

(** A path one plain component below a directory that exists names one of
    the entries of that directory. *)
Lemma exists_child (r : node) (directory : Path) (nm : str) :
  nm <> lit ".." ->
  exists_ r (directory ++ [nm]) = true ->
  In nm (child_names r directory).
Proof.
  intros Hnm. apply str_eqb_neq in Hnm.
  unfold exists_, child_names, scandir, resolve.
  rewrite realpath_app.
  destruct (realpath r [] directory) as [e|rp]; [discriminate|].
  simpl.
  destruct (get r rp) as [[? ? ?|? ? es]|]; try discriminate.
  rewrite Hnm. simpl.
  destruct (lookup_entry nm es) eqn:El; [|discriminate].
  intros _. eapply lookup_entry_In; eauto.
Qed.

Lemma name_child (directory : Path) (nm : str) : name (directory ++ [nm]) = nm.
Proof. unfold name. apply last_last. Qed.

(** A test that answers yes has found a node. *)
Lemma stat_or_true (r : node) (p : Path) (found : node -> bool) :
  stat_or name_too_long r p found false = Ok true ->
  exists n, resolve r p = Some n /\ found n = true.
Proof.
  unfold stat_or. destruct (resolve r p) as [n|].
  - intros H; injection H as H. now exists n.
  - destruct (ignore_error (stat_errno r p)); discriminate.
Qed.

(** Generators that do not raise, one after the other. *)
Lemma yield_each_quiet {A} (f : A -> yields) (xs : list A) :
  Forall (fun x => snd (f x) = None) xs ->
  yield_each f xs = (flat_map (fun x => fst (f x)) xs, None).
Proof.
  induction 1 as [|x xs Hx _ IH]; simpl; [reflexivity|].
  unfold yield_from. rewrite Hx, IH. reflexivity.
Qed.

Lemma parse_parts_nonempty (pattern seg : str) :
  In seg (parse_parts pattern) -> seg <> [].
Proof.
  unfold parse_parts. intros H. apply filter_In in H as [_ H].
  apply andb_true_iff in H as [H _]. intros ->. discriminate.
Qed.

(** The scan for a pattern of one component, which is neither ["**"] nor
    [".."], only yields direct children; a separator at the end of the
    pattern does not change that. *)
Lemma glob_single_component (directory : Path) (pattern seg : str)
      (w w' : world) (paths : list Path) :
  parse_parts pattern = [seg] ->
  seg <> lit "**" ->
  seg <> lit ".." ->
  glob directory pattern w = (Ok paths, w') ->
  Forall (fun p => exists nm, p = directory ++ [nm] /\
                              In nm (child_names (root w) directory)) paths.
Proof.
  intros Hparts Hrec Hup. unfold Cli.glob, Cli.glob_yields, pattern_parts.
  assert (Hne : seg <> []).
  { apply parse_parts_nonempty with (pattern := pattern). rewrite Hparts. now left. }
  destruct pattern as [|c pattern]; [discriminate|].
  destruct (is_absolute (c :: pattern)); [discriminate|].
  rewrite Hparts.
  assert (Hsel : forall child_parts,
             child_parts = [] \/ child_parts = [[]] ->
             make_selector seg child_parts = Raise invalid_pattern \/
             exists dironly,
               make_selector seg child_parts
               = Ok (if is_wildcard_pattern seg
                     then WildcardSelector seg dironly TerminatingSelector
                     else PreciseSelector seg dironly TerminatingSelector)).
  { intros child_parts Hcp. destruct seg as [|s0 seg']; [contradiction|].
    apply str_eqb_neq in Hrec.
    destruct Hcp as [->| ->]; cbn [make_selector]; rewrite Hrec;
      (destruct (contains (lit "**") (s0 :: seg')); [left; reflexivity|]);
      right; eexists; reflexivity. }
  cbn [app].
  match goal with
  | |- context [make_selector seg ?parts] =>
      destruct (Hsel parts) as [Hs|[dironly Hs]];
        [destruct (N.eqb (last (c :: pattern) 0%N) slash); auto
        | rewrite Hs; discriminate
        | rewrite Hs ]
  end.
  assert (Hscan : forall s,
             s = WildcardSelector seg dironly TerminatingSelector \/
             s = PreciseSelector seg dironly TerminatingSelector ->
             forall found ending,
               select_from fnmatch name_too_long (root w) s directory
               = (found, ending) ->
               Forall (fun p => exists nm, p = directory ++ [nm] /\
                                 In nm (child_names (root w) directory)) found).
  { intros s [->| ->] found ending; cbn [select_from].
    - rewrite yield_each_quiet.
      + intros H; injection H as <- _.
        apply Forall_flat_map. apply Forall_forall. intros [nm n] Hin. simpl.
        destruct (dironly && negb (is_dir_node n)); [constructor|].
        destruct (fnmatch nm seg); constructor; [|constructor].
        exists nm. split; [reflexivity|].
        unfold child_names. apply in_map_iff. now exists (nm, n).
      + apply Forall_forall. intros [nm n] _. simpl.
        destruct (dironly && negb (is_dir_node n)); [reflexivity|].
        destruct (fnmatch nm seg); reflexivity.
    - assert (Hin : forall test,
                 stat_or name_too_long (root w) (directory ++ [seg]) test false
                 = Ok true ->
                 In seg (child_names (root w) directory)).
      { intros test Ht. apply stat_or_true in Ht as [n [Hn _]].
        apply exists_child; [exact Hup|]. unfold exists_. now rewrite Hn. }
      destruct dironly.
      + destruct (Cli.path_is_dir name_too_long (root w) (directory ++ [seg]))
          as [[|]|err] eqn:Et; intros H; injection H as <- _; try constructor;
          [|constructor].
        exists seg. split; [reflexivity|]. exact (Hin _ Et).
      + destruct (Cli.path_exists name_too_long (root w) (directory ++ [seg]))
          as [[|]|err] eqn:Et; intros H; injection H as <- _; try constructor;
          [|constructor].
        exists seg. split; [reflexivity|]. exact (Hin _ Et). }
  destruct (is_wildcard_pattern seg);
    (destruct (path_is_dir (root w) directory) as [[|]|err];
     [| intros H; injection H as <- _; constructor | discriminate]);
    match goal with
    | |- context [select_from _ _ _ ?s _] =>
        destruct (select_from fnmatch name_too_long (root w) s directory)
          as [found [e|]] eqn:Efound; [discriminate|];
        intros H; injection H as <- _;
        eapply Hscan; [|exact Efound]; auto
    end.
Qed.

(** C5 (amended): for a pattern that is a single path component other than
    ["**"] and [".."], with or without a separator at its end, every path
    of the scan is the directory followed by the name of one of its
    entries, and every entry of the listing bears the name of a direct
    child of the directory. *)
Theorem single_component_listing (directory : Path) (pattern seg : str)
        (w w' : world) (items : list DirectoryEntry) :
  parse_parts pattern = [seg] ->
  seg <> lit "**" ->
  seg <> lit ".." ->
  list_items_core directory pattern w = (Ok items, w') ->
  (exists paths,
      glob directory pattern w = (Ok paths, w) /\
      Forall (fun p => exists nm, p = directory ++ [nm] /\
                                  In nm (child_names (root w) directory)) paths) /\
  Forall (fun e => In (entry_name e) (child_names (root w) directory)) items.
Proof.
  intros Hparts Hrec Hup H.
  apply list_items_core_ok in H as [_ [paths [es [Hg [HF ->]]]]].
  assert (Hpaths := Hg).
  eapply glob_single_component in Hpaths; eauto.
  split; [exists paths; auto|].
  apply sorted_Forall.
  clear Hg. induction HF as [|p e paths es He _ IH]; [constructor|].
  inversion Hpaths as [|? ? [nm [-> Hnm]] Hrest]; subst.
  constructor; [|auto].
  apply entry_of_ok in He as [_ [n [_ [Hn _]]]].
  now rewrite Hn, name_child.
Qed.

(** ** The [process] command *)

Local Abbreviation out_of output_dir :=
  (match output_dir with Some d => d | None => cwd end).
Local Abbreviation process_one :=
  (process_one ucd_toupper_full ucd_tolower_full handle_capital_sigma written_stat
               name_too_long path_str).
Local Abbreviation process_loop :=
  (process_loop ucd_toupper_full ucd_tolower_full handle_capital_sigma written_stat
                name_too_long path_str).
Local Abbreviation succeeds :=
  (succeeds ucd_toupper_full ucd_tolower_full handle_capital_sigma written_stat
            name_too_long).
Local Abbreviation all_succeed :=
  (all_succeed ucd_toupper_full ucd_tolower_full handle_capital_sigma written_stat
               name_too_long).
Local Abbreviation fails :=
  (fails ucd_toupper_full ucd_tolower_full handle_capital_sigma written_stat
         name_too_long path_str).
Local Abbreviation failure_line := (failure_line path_str repr).

Ltac write_text_case :=
  first [ right; eexists; reflexivity
        | left; eexists; repeat split; reflexivity ].

(** [write_text] either raises and changes nothing, or records the write. *)
Lemma write_text_cases (p : Path) (data : str) (w : world) :
  (exists w', write_text p data w = (Ok tt, w') /\
              answers w' = answers w /\
              trace w' = trace w ++ [Wrote p data]) \/
  (exists e, write_text p data w = (Raise e, w)).
Proof.
  unfold Cli.write_text.
  destruct (resolve (root w) p) as [[? ? ?|? ? ?]|];
    destruct (realpath (root w) [] p) as [?|?];
    try write_text_case;
    (destruct (realpath (root w) [] (removelast p)) as [?|rp'];
     [write_text_case|]);
    destruct (get (root w) rp') as [[? ? ?|? ? ?]|]; try write_text_case;
    destruct (name_too_long (name p)); write_text_case.
Qed.

Lemma write_text_raise (p : Path) (data : str) (w : world) (e : exn) :
  fst (write_text p data w) = Raise e -> write_text p data w = (Raise e, w).
Proof.
  destruct (write_text_cases p data w) as [[w' [H _]]|[e' H]]; rewrite H; simpl.
  - discriminate.
  - congruence.
Qed.

(** What [write_text] writes is what the path holds afterwards. *)
Lemma write_text_then_resolve (p : Path) (data : str) (w w' : world) :
  write_text p data w = (Ok tt, w') ->
  resolve (root w') p = Some (fresh_file written_stat p data).
Proof.
  unfold Cli.write_text, resolve.
  assert (Hroot : get (root w) [] <> None) by discriminate.
  destruct (realpath (root w) [] p) as [e|rp] eqn:Ep.
  - (* the path does not exist: the file is created *)
    destruct (realpath (root w) [] (removelast p)) as [e'|rp'] eqn:Eparent;
      [discriminate|].
    destruct (get (root w) rp') as [[sz mt c|sz mt es]|] eqn:Eget;
      try discriminate.
    destruct (name_too_long (name p)); [discriminate|].
    intros H; injection H as <-. simpl.
    assert (Hp : p <> []) by (intros ->; discriminate).
    destruct (exists_last Hp) as [parent [nm ->]].
    rewrite removelast_last in Eparent.
    unfold name. rewrite last_last.
    rewrite realpath_app, Eparent in Ep. simpl in Ep. rewrite Eget in Ep.
    destruct (eqb nm (lit "..")) eqn:Eup; [discriminate|].
    destruct (lookup_entry nm es) eqn:El; [discriminate|].
    set (new := fresh_file written_stat (parent ++ [nm]) data).
    set (mt' := snd (written_stat (parent ++ [nm]) data)).
    set (r' := modify (root w) rp' (with_entry mt' nm new)).
    assert (Hk : forall q, get (root w) q <> None ->
                           node_kind (get r' q) = node_kind (get (root w) q)).
    { apply modify_kind. intros m Hm q Hq. rewrite Eget in Hm.
      injection Hm as <-. destruct q as [|c' q]; [reflexivity|].
      simpl in *. rewrite lookup_upsert_other; [reflexivity|].
      intros <-. rewrite El in Hq. now apply Hq. }
    destruct (@realpath_stable (root w) r' Hk parent [] rp' Hroot Eparent)
      as [Hparent' _].
    rewrite realpath_app, Hparent'. simpl.
    unfold r' at 1.
    rewrite (@get_modify (with_entry mt' nm new) rp' (root w) _ Eget). simpl.
    rewrite Eup, lookup_upsert_same.
    rewrite get_app. unfold r'.
    rewrite (@get_modify (with_entry mt' nm new) rp' (root w) _ Eget). simpl.
    now rewrite lookup_upsert_same.
  - (* the path exists: a regular file is overwritten *)
    destruct (@realpath_stable (root w) (root w) (fun q _ => eq_refl) p [] rp
                               Hroot Ep) as [_ Hrp].
    destruct (get (root w) rp) as [[sz mt c|sz mt es]|] eqn:Eget;
      [|discriminate|contradiction].
    intros H; injection H as <-. simpl.
    set (new := fresh_file written_stat p data).
    assert (Hk : forall q, get (root w) q <> None ->
                           node_kind (get (modify (root w) rp (fun _ => new)) q)
                           = node_kind (get (root w) q)).
    { apply modify_kind. intros m Hm q Hq. rewrite Eget in Hm.
      injection Hm as <-. destruct q as [|c' q]; [reflexivity|].
      simpl in Hq. now contradiction Hq. }
    destruct (@realpath_stable (root w) _ Hk p [] rp Hroot Ep) as [Hp' _].
    rewrite Hp'. now rewrite (@get_modify (fun _ => new) rp (root w) _ Eget).
Qed.

(** Reading back a file that was just written gives the text written. *)
Lemma write_text_then_read (p : Path) (data : str) (w w' : world) :
  write_text p data w = (Ok tt, w') ->
  read_text p w' = (Ok data, w').
Proof.
  intros H. apply write_text_then_resolve in H.
  unfold Cli.read_text. now rewrite H.
Qed.


(** A file that succeeds leaves its transformed text at its output path. *)
Lemma succeeds_writes_result (out : Path) (t : str) (file : Path) (w w' : world) :
  succeeds out t file w w' ->
  exists sz mt content,
    resolve (root w) file = Some (File sz mt content) /\
    read_text (output_path out file t) w' = (Ok (transformed t content), w') /\
    trace w' = trace w ++ [Wrote (output_path out file t) (transformed t content)].
Proof.
  intros [sz [mt [content [Hfile Hwrite]]]].
  exists sz, mt, content. split; [exact Hfile|].
  split; [now apply write_text_then_read in Hwrite|].
  destruct (write_text_cases (output_path out file t) (transformed t content) w)
    as [[w2 [H2 [_ Ht]]]|[e H2]]; rewrite H2 in Hwrite; [|discriminate].
  now injection Hwrite as <-.
Qed.



(** *** The console in the monad *)

Lemma render_markup_run (markup : str) (w : world) :
  render_markup markup w =
  match markup_error markup with
  | Some m => (Raise (MarkupError m), w)
  | None => (Ok tt, w)
  end.
Proof. unfold Cli.render_markup. destruct (markup_error markup); reflexivity. Qed.

Lemma console_print_run (markup : str) (w : world) :
  console_print markup w =
  match markup_error markup with
  | Some m => (Raise (MarkupError m), w)
  | None => (Ok tt, w)
  end.
Proof. apply render_markup_run. Qed.

Lemma world_eta (w : world) : World (root w) (answers w) (trace w ++ []) = w.
Proof. destruct w. simpl. now rewrite app_nil_r. Qed.

(** *** The loop over the files *)

Lemma process_one_succeeds (out : Path) (t : str) (state : list (Path * exn) * str)
      (file : Path) (w w' : world) :
  succeeds out t file w w' ->
  process_one out t state file w = (Ok (fst state, done_with file), w').
Proof.
  intros [sz [mt [content [Hfile Hwrite]]]].
  unfold Cli.process_one, try_except, bind, ret.
  rewrite process_file_core_run, Hfile. simpl.
  unfold output_path in Hwrite. now rewrite Hwrite.
Qed.

Lemma process_one_fails (out : Path) (t : str) (state : list (Path * exn) * str)
      (file : Path) (w : world) (e : exn) :
  fails out t file w e ->
  process_one out t state file w
  = (Ok (fst state ++ [(file, e)], failed_with file), w).
Proof.
  unfold Cli.fails, Cli.process_one, try_except, bind, ret.
  intros [Hread|[sz [mt [content [Hfile Hwrite]]]]].
  - pose proof (process_file_core_reads_only file t w) as Hw.
    destruct (process_file_core file t w) as [[r|e'] w1]; simpl in *;
      [discriminate|]. subst w1. now injection Hread as ->.
  - rewrite process_file_core_run, Hfile. simpl. apply write_text_raise in Hwrite.
    unfold output_path in Hwrite. now rewrite Hwrite.
Qed.

Lemma process_loop_app (out : Path) (t : str) (l1 l2 : list Path)
      (state : list (Path * exn) * str) (w : world) :
  process_loop out t (l1 ++ l2) state w =
  match process_loop out t l1 state w with
  | (Ok state', w') => process_loop out t l2 state' w'
  | (Raise e, w') => (Raise e, w')
  end.
Proof.
  revert state w; induction l1 as [|f l1 IH]; intros state w; simpl;
    [reflexivity|].
  unfold bind.
  destruct (process_one out t state f w) as [[state'|e] w']; [apply IH|reflexivity].
Qed.

Lemma last_default {A} (x : A) (l : list A) (d d' : A) :
  last (x :: l) d = last (x :: l) d'.
Proof.
  revert x; induction l as [|y l IH]; intros x; [reflexivity|].
  change (last (y :: l) d = last (y :: l) d'). apply IH.
Qed.

(** When every file succeeds the errors are as before, and the task is
    described by the last file. *)
Lemma process_loop_all_succeed (out : Path) (t : str) (files : list Path)
      (state : list (Path * exn) * str) (w w' : world) :
  all_succeed out t files w w' ->
  process_loop out t files state w
  = (Ok (fst state, last (map done_with files) (snd state)), w').
Proof.
  revert state w; induction files as [|f files IH]; intros state w; simpl.
  - intros ->. now destruct state.
  - intros [w1 [Hf Hrest]]. unfold bind.
    rewrite (process_one_succeeds _ Hf). rewrite (IH _ _ Hrest). simpl.
    destruct (map done_with files); [reflexivity|].
    do 3 f_equal. apply last_default.
Qed.

(** The writes of files that all succeed, as the trace shows them. *)
Lemma all_succeed_trace (out : Path) (t : str) (files : list Path) (w w' : world) :
  all_succeed out t files w w' ->
  answers w' = answers w /\
  exists texts,
    length texts = length files /\
    trace w' = trace w ++
               map (fun ft => Wrote (output_path out (fst ft) t) (snd ft))
                   (combine files texts).
Proof.
  revert w; induction files as [|f files IH]; intros w; simpl.
  - intros ->. split; [reflexivity|]. exists []. now rewrite app_nil_r.
  - intros [w1 [[sz [mt [content [_ Hw]]]] Hrest]].
    apply IH in Hrest as [Ha [texts [Hlen Ht]]].
    destruct (write_text_cases (output_path out f t) (transformed t content) w)
      as [[w2 [H2 [Ha2 Ht2]]]|[e H2]]; rewrite H2 in Hw; [|discriminate].
    injection Hw as <-.
    split; [congruence|].
    exists (transformed t content :: texts). simpl.
    split; [now rewrite Hlen|].
    rewrite Ht, Ht2, <- app_assoc. reflexivity.
Qed.

(** The description of a file renders in the text column: a name holds no
    separator, so that it closes no tag. *)
Lemma description_renders (files : list Path) (d : str) :
  Forall (fun f => mem slash (name f) = false) files ->
  markup_error (text_column d) = None ->
  markup_error (text_column (last (map done_with files) d)) = None.
Proof.
  induction 1 as [|f files Hf _ IH]; intros Hd; simpl; [exact Hd|].
  destruct (map done_with files) eqn:E.
  - apply text_column_renders; [discriminate | exact Hf].
  - apply IH. exact Hd.
Qed.

(** *** The summary and the whole command *)

Local Abbreviation report :=
  (fun fe : Path * exn => Reported (name (fst fe)) (snd fe)).

(** The lines of the summary are printed and recorded one by one, up to
    the first one that does not render. *)
Lemma report_lines_run (errors : list (Path * exn)) (w : world) :
  exists shown rest r,
    for_each errors
             (fun fe => console_print (failure_line (fst fe) (snd fe)) ;;;
                        emit (report fe)) w
    = (r, World (root w) (answers w) (trace w ++ map report shown)) /\
    errors = shown ++ rest /\
    Forall (fun fe => renders (failure_line (fst fe) (snd fe))) shown /\
    ((r = Ok tt /\ rest = []) \/
     exists fe rest' m,
       rest = fe :: rest' /\
       markup_error (failure_line (fst fe) (snd fe)) = Some m /\
       r = Raise (MarkupError m)).
Proof.
  revert w; induction errors as [|fe errors IH]; intros w.
  - exists [], [], (Ok tt). simpl. rewrite world_eta. unfold ret.
    repeat split; auto.
  - cbn [for_each]. unfold bind at 1. unfold bind at 1.
    rewrite console_print_run.
    destruct (markup_error (failure_line (fst fe) (snd fe))) as [m|] eqn:Em.
    + exists [], (fe :: errors), (Raise (MarkupError m)). simpl.
      rewrite world_eta. repeat split; auto.
      right. exists fe, errors, m. auto.
    + unfold emit at 1.
      destruct (IH (World (root w) (answers w) (trace w ++ [report fe])))
        as [shown [rest [r [Hrun [Hsplit [Hshown Hr]]]]]].
      exists (fe :: shown), rest, r. rewrite Hrun. cbn [root answers trace].
      split; [now rewrite <- app_assoc|].
      split; [now rewrite Hsplit|].
      split; [constructor; [exact Em | exact Hshown] | exact Hr].
Qed.

(** The command once the run is confirmed: the loop runs from the confirmed
    world, the text column is rendered for the last description, and the
    summary is printed. *)
Lemma process_confirmed (files : list Path) (t : str) (output_dir : option Path)
      (yes : bool) (w w1 : world) :
  confirmed files yes w = Some w1 ->
  process files t output_dir false yes w =
  match process_loop (out_of output_dir) t files ([], processing_files) w1 with
  | (Ok state, w2) =>
      match markup_error (text_column (snd state)) with
      | Some m => (Raise (MarkupError m), w2)
      | None =>
          match fst state with
          | [] => (Ok tt, w2)
          | _ :: _ =>
              match for_each (fst state)
                             (fun fe =>
                                console_print (failure_line (fst fe) (snd fe)) ;;;
                                emit (report fe)) w2 with
              | (Ok _, w3) => (Raise (Exit 1), w3)
              | (Raise e, w3) => (Raise e, w3)
              end
          end
      end
  | (Raise e, w2) => (Raise e, w2)
  end.
Proof.
  unfold confirmed, Cli.process. rewrite andb_true_r.
  intros Hc.
  assert (Hprompt :
    (if (1 <? length files) && negb yes
     then console_print (about_to_process (length files)) ;;;
          go <- confirm_ask ;;
          if negb go then console_print aborted_by_user ;;; raise (Exit 130)
          else ret tt
     else ret tt) w = (Ok tt, w1)).
  { destruct ((1 <? length files) && negb yes).
    - unfold bind at 1. rewrite console_print_run.
      unfold Cli.markup_error. rewrite about_to_process_renders.
      unfold bind, confirm_ask.
      destruct (answers w) as [|[|] rest]; try discriminate.
      injection Hc as <-. reflexivity.
    - injection Hc as <-. reflexivity. }
  unfold bind at 1. rewrite Hprompt. cbv iota.
  unfold bind at 1. rewrite render_markup_run.
  unfold Cli.markup_error at 1. rewrite processing_files_renders.
  unfold bind at 1.
  destruct (process_loop (out_of output_dir) t files ([], processing_files) w1)
    as [[[errors description]|e] w2]; [|reflexivity].
  unfold bind at 1. rewrite render_markup_run. cbn [fst snd].
  destruct (markup_error (text_column description)) as [m|]; [reflexivity|].
  destruct errors as [|fe errors].
  - rewrite console_print_run. unfold Cli.markup_error.
    now rewrite successfully_processed_renders.
  - unfold bind at 1. rewrite console_print_run.
    unfold Cli.markup_error at 1. rewrite some_files_failed_renders.
    unfold bind at 1.
    destruct (for_each (fe :: errors) _ w2) as [[[]|e] w3]; reflexivity.
Qed.

(** The loop accounts for every file: it ends with one write or one new
    error per file, asks nothing and raises nothing; the task is described
    as it was or by one of the files. *)
Lemma process_loop_account (out : Path) (t : str) (files : list Path)
      (state : list (Path * exn) * str) (w : world) :
  exists errors' description w' evs,
    process_loop out t files state w = (Ok (fst state ++ errors', description), w') /\
    answers w' = answers w /\
    trace w' = trace w ++ evs /\
    writes evs = evs /\
    length evs + length errors' = length files /\
    (description = snd state \/
     exists f, In f files /\ (description = done_with f \/ description = failed_with f)).
Proof.
  revert state w; induction files as [|f files IH]; intros state w; simpl.
  - exists [], (snd state), w, []. rewrite !app_nil_r. destruct state.
    repeat split; auto.
  - assert (Hone :
      (exists w1 ev, process_one out t state f w = (Ok (fst state, done_with f), w1) /\
                     answers w1 = answers w /\
                     trace w1 = trace w ++ [ev] /\ writes [ev] = [ev]) \/
      (exists e, process_one out t state f w
                 = (Ok (fst state ++ [(f, e)], failed_with f), w))).
    { unfold Cli.process_one, try_except, bind, ret.
      pose proof (process_file_core_reads_only f t w) as Hw.
      destruct (process_file_core f t w) as [[r|e] w0] eqn:Er; simpl in Hw; subst w0;
        [|right; eexists; reflexivity].
      destruct (write_text_cases (joinpath out (output_name f t)) (result r) w)
        as [[w1 [H1 [Ha Ht]]]|[e H1]]; rewrite H1.
      - left. exists w1, (Wrote (joinpath out (output_name f t)) (result r)).
        auto.
      - right. exists e. reflexivity. }
    unfold bind.
    destruct Hone as [[w1 [ev [H1 [Ha1 [Ht1 Hw1]]]]]|[e H1]]; rewrite H1.
    + destruct (IH (fst state, done_with f) w1)
        as [errors2 [d [w2 [evs2 [H2 [Ha2 [Ht2 [Hw2 [Hl Hd]]]]]]]]].
      exists errors2, d, w2, (ev :: evs2). rewrite H2.
      split; [reflexivity|]. split; [congruence|].
      split; [rewrite Ht2, Ht1, <- app_assoc; reflexivity|].
      split; [|split; [simpl; lia|]].
      * change (ev :: evs2) with ([ev] ++ evs2).
        unfold writes in *. rewrite filter_app. congruence.
      * right. destruct Hd as [->|[g [Hg Hd]]]; [exists f; simpl; auto|].
        exists g. auto.
    + destruct (IH (fst state ++ [(f, e)], failed_with f) w)
        as [errors2 [d [w2 [evs2 [H2 [Ha2 [Ht2 [Hw2 [Hl Hd]]]]]]]]].
      exists ((f, e) :: errors2), d, w2, evs2. rewrite H2. cbn [fst].
      rewrite <- app_assoc.
      repeat split; auto; [simpl; lia|].
      right. destruct Hd as [->|[g [Hg Hd]]]; [exists f; simpl; auto|].
      exists g. auto.
Qed.

Lemma writes_not_asked (evs : list event) : writes evs = evs -> ~ In Asked evs.
Proof.
  intros H Hin. rewrite <- H in Hin. unfold writes in Hin.
  apply filter_In in Hin as [_ Hin]. discriminate.
Qed.

Lemma combine_app_same {A B} (l1 l2 : list A) (t1 t2 : list B) :
  length t1 = length l1 ->
  combine (l1 ++ l2) (t1 ++ t2) = combine l1 t1 ++ combine l2 t2.
Proof.
  revert t1; induction l1 as [|a l1 IH]; intros [|b t1]; simpl; try discriminate.
  - reflexivity.
  - intros H. injection H as H. now rewrite IH.
Qed.


(** The preview of a dry run: the lines are rendered one by one, and
    nothing else happens. *)
Lemma would_process_lines (files : list Path) (t : str) (w : world) :
  for_each files (fun file => console_print (would_process file t)) w =
  (match first_error style_normalize meta_error
                     (map (fun file => would_process file t) files) with
   | Some m => Raise (MarkupError m)
   | None => Ok tt
   end, w).
Proof.
  induction files as [|f files IH]; [reflexivity|].
  cbn [for_each map first_error]. unfold bind. rewrite console_print_run.
  destruct (markup_error (would_process f t)); [reflexivity | exact IH].
Qed.

Lemma process_dry_run (files : list Path) (t : str) (output_dir : option Path)
      (yes : bool) (w : world) :
  process files t output_dir true yes w =
  (match first_error style_normalize meta_error
                     (map (fun file => would_process file t) files) with
   | Some m => Raise (MarkupError m)
   | None => Raise (Exit 0)
   end, w).
Proof.
  unfold Cli.process. rewrite andb_false_r. unfold bind at 1. unfold ret at 1.
  unfold bind at 1. rewrite console_print_run.
  unfold Cli.markup_error at 1. rewrite dry_run_banner_renders.
  unfold bind at 1. rewrite would_process_lines.
  destruct (first_error _ _ _); reflexivity.
Qed.

(** A confirmed run: what the loop leaves, and what the command makes of
    it. *)
Lemma process_confirmed_account (files : list Path) (t : str)
      (output_dir : option Path) (yes : bool) (w w1 : world) :
  confirmed files yes w = Some w1 ->
  exists errors description w2 ws shown r,
    process_loop (out_of output_dir) t files ([], processing_files) w1
    = (Ok (errors, description), w2) /\
    answers w2 = answers w1 /\
    trace w2 = trace w1 ++ ws /\
    writes ws = ws /\
    length ws + length errors = length files /\
    (description = processing_files \/
     exists f, In f files /\ (description = done_with f \/ description = failed_with f)) /\
    process files t output_dir false yes w
    = (r, World (root w2) (answers w2) (trace w2 ++ map report shown)) /\
    (exists rest, errors = shown ++ rest) /\
    ((exists m, r = Raise (MarkupError m)) \/
     (errors = [] /\ r = Ok tt) \/
     (errors <> [] /\ shown = errors /\ r = Raise (Exit 1))) /\
    (markup_error (text_column description) = None ->
     Forall (fun fe => renders (failure_line (fst fe) (snd fe))) errors ->
     (errors = [] /\ r = Ok tt) \/
     (errors <> [] /\ shown = errors /\ r = Raise (Exit 1))).
Proof.
  intros Hc. rewrite process_confirmed with (w1 := w1) by exact Hc.
  destruct (process_loop_account (out_of output_dir) t files
                                 ([], processing_files) w1)
    as [errors [d [w2 [ws [Hloop [Ha [Ht [Hw [Hl Hd]]]]]]]]].
  cbn [fst snd app] in Hloop, Hd. rewrite Hloop. cbn [fst snd].
  exists errors, d, w2, ws.
  assert (Hnonempty : forall (fe : Path * exn) l, fe :: l <> [])
    by (intros fe l; discriminate).
  destruct (markup_error (text_column d)) as [m|] eqn:Ed.
  { exists [], (Raise (MarkupError m)). cbn [map]. rewrite world_eta.
    split; [reflexivity|]. split; [exact Ha|]. split; [exact Ht|].
    split; [exact Hw|]. split; [exact Hl|]. split; [exact Hd|].
    split; [reflexivity|]. split; [now exists errors|].
    split; [left; now exists m | discriminate]. }
  destruct errors as [|fe errors].
  { exists [], (Ok tt). cbn [map]. rewrite world_eta.
    split; [reflexivity|]. split; [exact Ha|]. split; [exact Ht|].
    split; [exact Hw|]. split; [exact Hl|]. split; [exact Hd|].
    split; [reflexivity|]. split; [now exists []|].
    split; [right; left; auto | intros _ _; left; auto]. }
  destruct (report_lines_run (fe :: errors) w2)
    as [shown [rest [r0 [Hrun [Hsplit [Hshown Hr0]]]]]].
  rewrite Hrun.
  destruct Hr0 as [[-> ->]|[fe' [rest' [m [-> [Hm ->]]]]]].
  - rewrite app_nil_r in Hsplit. subst shown.
    exists (fe :: errors), (Raise (Exit 1)).
    split; [reflexivity|]. split; [exact Ha|]. split; [exact Ht|].
    split; [exact Hw|]. split; [exact Hl|]. split; [exact Hd|].
    split; [reflexivity|]. split; [exists []; now rewrite app_nil_r|].
    split; [right; right; auto | intros _ _; right; auto].
  - exists shown, (Raise (MarkupError m)).
    split; [reflexivity|]. split; [exact Ha|]. split; [exact Ht|].
    split; [exact Hw|]. split; [exact Hl|]. split; [exact Hd|].
    split; [reflexivity|]. split; [now exists (fe' :: rest')|].
    split; [left; now exists m|].
    intros _ Hall. exfalso. rewrite Hsplit in Hall.
    apply Forall_app in Hall as [_ Hall]. inversion Hall as [|? ? Hfe _]; subst.
    unfold Cli.renders in Hfe. congruence.
Qed.

(** C8: without [--yes] and [--dry-run], (1) with two or more files and a
    declined prompt the command exits with status 130, the file system is
    unchanged and the trace only gains the prompt; (2) with at most one
    file the prompt is not shown and no reply is consumed. *)
Theorem declined_confirmation (files : list Path) (t : str)
        (output_dir : option Path) (w : world) :
  (2 <= length files ->
   forall rest, answers w = false :: rest ->
     process files t output_dir false false w =
     (Raise (Exit 130), World (root w) rest (trace w ++ [Asked])) /\
     exit_status (fst (process files t output_dir false false w)) = 130%Z) /\
  (length files <= 1 ->
   exists r w' evs,
     process files t output_dir false false w = (r, w') /\
     answers w' = answers w /\
     trace w' = trace w ++ evs /\
     ~ In Asked evs).
Proof.
  split.
  - intros Hlen rest Hans.
    assert (H : process files t output_dir false false w =
                (Raise (Exit 130), World (root w) rest (trace w ++ [Asked]))).
    { unfold Cli.process.
      replace (1 <? length files) with true
        by (symmetry; apply Nat.ltb_lt; lia).
      cbn [negb andb]. unfold bind at 1. unfold bind at 1.
      rewrite console_print_run. unfold Cli.markup_error at 1.
      rewrite about_to_process_renders.
      unfold bind at 1. unfold confirm_ask. rewrite Hans. cbn [negb].
      unfold bind at 1. rewrite console_print_run. unfold Cli.markup_error at 1.
      rewrite aborted_by_user_renders. reflexivity. }
    rewrite H. auto.
  - intros Hlen.
    assert (Hc : confirmed files false w = Some w).
    { unfold confirmed.
      replace (1 <? length files) with false
        by (symmetry; apply Nat.ltb_ge; lia).
      reflexivity. }
    destruct (@process_confirmed_account files t output_dir false w w Hc)
      as [errors [d [w2 [ws [shown [r [_ [Ha [Ht [Hw [_ [_ [Hrun _]]]]]]]]]]]]].
    exists r, (World (root w2) (answers w2) (trace w2 ++ map report shown)),
           (ws ++ map report shown).
    split; [exact Hrun|]. cbn [answers trace]. split; [exact Ha|].
    split; [now rewrite Ht, <- app_assoc|].
    intros Hin. apply in_app_or in Hin as [Hin|Hin].
    + now apply writes_not_asked in Hin.
    + apply in_map_iff in Hin as [x [Hx _]]. discriminate.
Qed.

(** ** Further properties of the listing operation *)

Lemma entry_of_total (path : Path) (w : world) (n : node) :
  resolve (root w) path = Some n ->
  fromtimestamp_error (mtime n) = None ->
  exists e, entry_of path w = (Ok e, w).
Proof.
  intros Hn Ht.
  unfold Cli.entry_of, bind, lift, ret, Cli.path_is_dir, Cli.path_is_file,
    stat_or, stat, fromtimestamp, raise.
  rewrite Hn. destruct n as [sz mt c|sz mt es]; simpl in *; rewrite ?Hn; simpl;
    rewrite Ht; eexists; reflexivity.
Qed.

Lemma entry_of_state (path : Path) (w : world) : snd (entry_of path w) = w.
Proof.
  unfold Cli.entry_of, bind, lift, ret, Cli.path_is_dir, Cli.path_is_file,
    stat_or, stat, fromtimestamp, raise.
  destruct (resolve (root w) path) as [[sz mt c|sz mt es]|] eqn:E; simpl;
    rewrite ?E; simpl.
  - destruct (fromtimestamp_error mt); reflexivity.
  - destruct (fromtimestamp_error mt); reflexivity.
  - destruct (ignore_error (stat_errno (root w) path)); simpl; rewrite ?E;
      reflexivity.
Qed.

Lemma collect_state (paths : list Path) (acc : list DirectoryEntry) (w : world) :
  snd (collect paths acc w) = w.
Proof.
  revert acc; induction paths as [|p paths IH]; intros acc; simpl;
    [reflexivity|].
  unfold bind. pose proof (entry_of_state p w) as Hs.
  destruct (entry_of p w) as [[e|err] w1]; simpl in Hs; subst w1;
    [apply IH | reflexivity].
Qed.

(** The listing operation never changes the world, whether it returns or
    raises. *)
Lemma list_items_core_state (directory : Path) (pattern : str) (w : world) :
  snd (list_items_core directory pattern w) = w.
Proof.
  unfold Cli.list_items_core, bind, lift, ask_fs, raise, ret.
  destruct (path_exists (root w) directory) as [[|]|err]; simpl; try reflexivity.
  pose proof (collect_state (fst (glob_yields (root w) directory pattern)) [] w)
    as Hc.
  destruct (collect _ [] w) as [[es|err] w1]; simpl in Hc; subst w1;
    [|reflexivity].
  destruct (snd (glob_yields (root w) directory pattern)); reflexivity.
Qed.

Lemma insert_sorted_perm (x : DirectoryEntry) (l : list DirectoryEntry) :
  Permutation (insert_sorted x l) (x :: l).
Proof.
  induction l as [|y l IH]; simpl; [apply Permutation_refl|].
  destruct (tuple_ltb (sort_key y) (sort_key x)).
  - apply (Permutation_trans (l' := y :: x :: l)).
    + now apply perm_skip.
    + apply perm_swap.
  - apply Permutation_refl.
Qed.

Lemma sorted_perm (l : list DirectoryEntry) : Permutation (sorted l) l.
Proof.
  induction l as [|x l IH]; simpl; [apply perm_nil|].
  apply (Permutation_trans (insert_sorted_perm x (sorted l))).
  now apply perm_skip.
Qed.

(** X1: a listing holds exactly one entry for every path of the scan, named
    after it: sorting only reorders, nothing is dropped or repeated. *)
Theorem listing_is_permutation (directory : Path) (pattern : str) (w w' : world)
        (items : list DirectoryEntry) :
  list_items_core directory pattern w = (Ok items, w') ->
  exists paths,
    glob directory pattern w = (Ok paths, w) /\
    length items = length paths /\
    Permutation (map entry_name items) (map name paths).
Proof.
  intros H. apply list_items_core_ok in H as [_ [paths [es [Hg [HF ->]]]]].
  exists paths. split; [exact Hg|].
  assert (Hnames : map entry_name es = map name paths).
  { clear Hg. induction HF as [|p e paths es He _ IH]; simpl; [reflexivity|].
    apply entry_of_ok in He as [_ [n [_ [Hn _]]]]. now rewrite Hn, IH. }
  split.
  - rewrite (Permutation_length (sorted_perm es)).
    rewrite <- (length_map entry_name es), Hnames. apply length_map.
  - rewrite <- Hnames. apply Permutation_map. apply sorted_perm.
Qed.

Lemma In_lookup_entry (nm : str) (es : list (str * node)) :
  In nm (map fst es) -> lookup_entry nm es <> None.
Proof.
  induction es as [|[k n] es IH]; simpl; [contradiction|].
  intros [->|H].
  - now rewrite str_eqb_refl.
  - destruct (eqb k nm); [discriminate | now apply IH].
Qed.

(** Every entry of an existing directory can be looked up by its path. *)
Lemma child_resolves (r : node) (directory : Path) (nm : str) :
  is_dir r directory = true ->
  In nm (child_names r directory) ->
  resolve r (directory ++ [nm]) <> None.
Proof.
  unfold is_dir, child_names, scandir, resolve.
  rewrite realpath_app.
  destruct (realpath r [] directory) as [e|rp]; [discriminate|].
  destruct (get r rp) as [[sz mt c|sz mt es]|] eqn:Eget; try discriminate.
  intros _ Hin. simpl in *. rewrite Eget.
  destruct (eqb nm (lit "..")).
  - simpl. eapply get_removelast. exact Eget.
  - apply In_lookup_entry in Hin.
    destruct (lookup_entry nm es) eqn:El; [|contradiction].
    simpl. rewrite get_app, Eget. simpl. now rewrite El.
Qed.

Lemma collect_children (directory : Path) (names : list str)
      (acc : list DirectoryEntry) (w : world) :
  Forall (fun nm => resolve (root w) (directory ++ [nm]) <> None) names ->
  Forall (fun nm => forall n, resolve (root w) (directory ++ [nm]) = Some n ->
                              fromtimestamp_error (mtime n) = None) names ->
  exists es,
    collect (map (fun nm => directory ++ [nm]) names) acc w = (Ok (acc ++ es), w) /\
    map entry_name es = names.
Proof.
  intros H. revert acc. induction H as [|nm names Hnm _ IH]; intros acc Ht; simpl.
  - exists []. now rewrite app_nil_r.
  - inversion Ht as [|? ? Hconv Hrest]; subst. unfold bind.
    destruct (resolve (root w) (directory ++ [nm])) as [n|] eqn:En;
      [|contradiction].
    destruct (@entry_of_total (directory ++ [nm]) w n En (Hconv n eq_refl))
      as [e He].
    rewrite He.
    destruct (IH (acc ++ [e]) Hrest) as [es [Hc Hn]].
    exists (e :: es). rewrite Hc, <- app_assoc. split; [reflexivity|].
    simpl. apply entry_of_ok in He as [_ [n' [_ [Hname _]]]].
    now rewrite Hname, name_child, Hn.
Qed.


(** X3: listing a path that is a regular file yields no entry: with the
    default pattern the result is the empty list, and no pattern gives
    anything else than the empty list. *)
Theorem listing_of_a_file_is_empty (directory : Path) (w : world)
        (sz : N) (mt : Z) (text : str) :
  resolve (root w) directory = Some (File sz mt text) ->
  list_items_core directory (lit "*") w = (Ok [], w) /\
  forall pattern items w',
    list_items_core directory pattern w = (Ok items, w') -> items = [].
Proof.
  intros Hfile.
  assert (Hdir : path_is_dir (root w) directory = Ok false).
  { unfold Cli.path_is_dir, stat_or. now rewrite Hfile. }
  split.
  - unfold Cli.list_items_core, bind, lift, ask_fs, ret, Cli.path_exists, stat_or,
      Cli.glob_yields.
    rewrite Hfile. cbn. rewrite Hdir. reflexivity.
  - intros pattern items w' H.
    apply list_items_core_ok in H as [_ [paths [es [Hg [HF ->]]]]].
    assert (Hp : paths = []).
    { unfold Cli.glob, Cli.glob_yields in Hg.
      destruct pattern as [|c pattern]; [discriminate|].
      destruct (is_absolute (c :: pattern)); [discriminate|].
      destruct (pattern_parts (c :: pattern)) as [|pat child_parts]; [discriminate|].
      destruct (make_selector pat child_parts) as [[| | |]|]; try discriminate;
        rewrite Hdir in Hg; now injection Hg as <-. }
    subst paths. inversion HF. reflexivity.
Qed.

(** ** Transforms on ASCII text *)

Lemma ascii_upper_fixed (c : N) :
  (c < 128)%N ->
  exists c', ToUpperFull c = [c'] /\ (c' < 128)%N /\ ToUpperFull c' = [c'].
Proof.
  intros H.
  assert (Hfix : forall d, (d < 97 \/ 122 < d)%N -> (d < 128)%N ->
                           ToUpperFull d = [d]).
  { intros d Hd Hd'. unfold PyUnicode_ToUpperFull, Latin1.toupper_full.
    replace (d <? 256)%N with true by (symmetry; apply N.ltb_lt; lia).
    replace ((97 <=? d)%N && (d <=? 122)%N) with false.
    - replace (d =? 181)%N with false by (symmetry; apply N.eqb_neq; lia).
      replace (d =? 223)%N with false by (symmetry; apply N.eqb_neq; lia).
      replace (224 <=? d)%N with false by (symmetry; apply N.leb_gt; lia).
      replace (d =? 255)%N with false by (symmetry; apply N.eqb_neq; lia).
      reflexivity.
    - symmetry. apply andb_false_iff.
      destruct Hd; [left; apply N.leb_gt | right; apply N.leb_gt]; lia. }
  destruct ((97 <=? c)%N && (c <=? 122)%N) eqn:E.
  - apply andb_true_iff in E as [E1 E2]. apply N.leb_le in E1, E2.
    exists (c - 32)%N. split; [|split; [lia | apply Hfix; lia]].
    unfold PyUnicode_ToUpperFull, Latin1.toupper_full.
    replace (c <? 256)%N with true by (symmetry; apply N.ltb_lt; lia).
    replace ((97 <=? c)%N && (c <=? 122)%N) with true; [reflexivity|].
    symmetry. apply andb_true_iff. split; apply N.leb_le; lia.
  - exists c. apply andb_false_iff in E.
    assert (Hc : (c < 97 \/ 122 < c)%N)
      by (destruct E as [E|E]; apply N.leb_gt in E; lia).
    repeat split; auto.
Qed.

Lemma ascii_lower_fixed (c : N) :
  (c < 128)%N ->
  exists c', ToLowerFull c = [c'] /\ (c' < 128)%N /\ ToLowerFull c' = [c'].
Proof.
  intros H.
  assert (Hfix : forall d, (d < 65 \/ 90 < d)%N -> (d < 128)%N ->
                           ToLowerFull d = [d]).
  { intros d Hd Hd'. unfold PyUnicode_ToLowerFull, Latin1.tolower_full.
    replace (d <? 256)%N with true by (symmetry; apply N.ltb_lt; lia).
    replace ((65 <=? d)%N && (d <=? 90)%N) with false.
    - replace (192 <=? d)%N with false by (symmetry; apply N.leb_gt; lia).
      reflexivity.
    - symmetry. apply andb_false_iff.
      destruct Hd; [left; apply N.leb_gt | right; apply N.leb_gt]; lia. }
  destruct ((65 <=? c)%N && (c <=? 90)%N) eqn:E.
  - apply andb_true_iff in E as [E1 E2]. apply N.leb_le in E1, E2.
    exists (c + 32)%N. split; [|split; [lia | apply Hfix; lia]].
    unfold PyUnicode_ToLowerFull, Latin1.tolower_full.
    replace (c <? 256)%N with true by (symmetry; apply N.ltb_lt; lia).
    replace ((65 <=? c)%N && (c <=? 90)%N) with true; [reflexivity|].
    symmetry. apply andb_true_iff. split; apply N.leb_le; lia.
  - exists c. apply andb_false_iff in E.
    assert (Hc : (c < 65 \/ 90 < c)%N)
      by (destruct E as [E|E]; apply N.leb_gt in E; lia).
    repeat split; auto.
Qed.

(** On ASCII text [lower] maps character by character. *)
Lemma do_lower_ascii (s0 rest : str) (i : nat) :
  Forall is_ascii rest ->
  do_lower ucd_tolower_full handle_capital_sigma s0 i rest
  = flat_map ToLowerFull rest.
Proof.
  intros H. revert i.
  induction H as [|c rest Hc _ IH]; intros i; simpl; [reflexivity|].
  rewrite IH. unfold lower_ucs4.
  replace (c =? 931)%N with false
    by (symmetry; apply N.eqb_neq; unfold is_ascii in Hc; lia).
  reflexivity.
Qed.

Lemma lower_ascii (s : str) :
  Forall is_ascii s -> lower s = flat_map ToLowerFull s.
Proof. apply do_lower_ascii. Qed.

Lemma upper_ascii_idempotent (s : str) :
  Forall is_ascii s -> upper (upper s) = upper s /\ Forall is_ascii (upper s).
Proof.
  unfold Cli.upper.
  induction 1 as [|c s Hc _ [IH1 IH2]]; simpl; [split; [reflexivity|constructor]|].
  destruct (ascii_upper_fixed Hc) as [c' [H1 [H2 H3]]].
  rewrite H1. simpl. rewrite H3, IH1. split; [reflexivity|].
  constructor; assumption.
Qed.

Lemma lower_ascii_idempotent (s : str) :
  Forall is_ascii s -> lower (lower s) = lower s /\ Forall is_ascii (lower s).
Proof.
  intros H.
  assert (Hflat : flat_map ToLowerFull (flat_map ToLowerFull s)
                  = flat_map ToLowerFull s /\
                  Forall is_ascii (flat_map ToLowerFull s)).
  { induction H as [|c s Hc _ [IH1 IH2]]; simpl;
      [split; [reflexivity|constructor]|].
    destruct (ascii_lower_fixed Hc) as [c' [H1 [H2 H3]]].
    rewrite H1. simpl. rewrite H3, IH1. split; [reflexivity|].
    constructor; assumption. }
  destruct Hflat as [H1 H2].
  rewrite (lower_ascii H). rewrite (lower_ascii H2). auto.
Qed.

(** X5: on ASCII text every transform is idempotent and keeps the text ASCII:
    transforming a result again, with the same transform name, gives the
    same text. *)
Theorem transform_idempotent_on_ascii (t : str) (C : str) :
  Forall is_ascii C ->
  transformed t (transformed t C) = transformed t C /\
  Forall is_ascii (transformed t C).
Proof.
  intros H. unfold Cli.transformed.
  destruct (eqb t (lit "upper")); [now apply upper_ascii_idempotent|].
  destruct (eqb t (lit "lower")); [now apply lower_ascii_idempotent|].
  auto.
Qed.



(** ** Further properties of the transform operation and of [process] *)


Lemma stem_suffix (p : Path) : stem p ++ suffix p = name p.
Proof.
  unfold stem, suffix. destruct (suffix_index (name p)); [apply firstn_skipn|].
  apply app_nil_r.
Qed.

Lemma mem_parts (c : N) (i : nat) (s : str) :
  mem c s = false -> mem c (firstn i s) = false /\ mem c (skipn i s) = false.
Proof.
  intros H. rewrite <- (firstn_skipn i s), mem_app in H.
  now apply orb_false_iff in H.
Qed.

Lemma split_without_separator (sep : N) (s : str) :
  mem sep s = false -> split sep s = [s].
Proof.
  induction s as [|c s IH]; simpl; [reflexivity|].
  intros H. apply orb_false_iff in H as [Hc Hs].
  rewrite N.eqb_sym, Hc. now rewrite (IH Hs).
Qed.

(** The name of the output file never contains a separator when the name of
    the input and the transform do not. *)
Lemma output_name_without_separator (file : Path) (t : str) :
  mem slash (name file) = false ->
  mem slash t = false ->
  mem slash (output_name file t) = false.
Proof.
  intros Hn Ht. unfold output_name, stem, suffix.
  destruct (suffix_index (name file)) as [i|].
  - destruct (@mem_parts slash i (name file) Hn) as [H1 H2].
    now rewrite !mem_app, H1, H2, Ht.
  - now rewrite !mem_app, Hn, Ht.
Qed.

(** X6: when neither the name of the input file nor the transform contains
    a [/], the output file is the entry [stem_transform.suffix] of the
    output directory itself; its name is longer than the name of the input
    by the transform and one character, so it is never the name of the
    input. *)
Theorem output_file_in_output_dir (out file : Path) (t : str) :
  mem slash (name file) = false ->
  mem slash t = false ->
  output_path out file t = out ++ [stem file ++ lit "_" ++ t ++ suffix file] /\
  length (output_name file t) = length (name file) + 1 + length t /\
  output_name file t <> name file.
Proof.
  intros Hn Ht.
  pose proof (output_name_without_separator file t Hn Ht) as Hs.
  assert (Hlen : length (output_name file t) = length (name file) + 1 + length t).
  { unfold output_name. rewrite <- (stem_suffix file).
    rewrite !length_app. simpl. lia. }
  assert (Hunder : In 95%N (output_name file t)).
  { unfold output_name. apply in_or_app. right. left. reflexivity. }
  split; [|split; [exact Hlen|]].
  - unfold output_path, joinpath, parse_parts.
    fold (output_name file t).
    replace (is_absolute (output_name file t)) with false.
    + assert (Hne : eqb (output_name file t) [] = false).
      { apply str_eqb_neq. intros E. rewrite E in Hunder. contradiction. }
      assert (Hnd : eqb (output_name file t) (lit ".") = false).
      { apply str_eqb_neq. intros E. rewrite E in Hunder.
        destruct Hunder as [H|[]]. discriminate H. }
      rewrite (@split_without_separator slash (output_name file t) Hs).
      cbn [filter]. now rewrite Hne, Hnd.
    + symmetry. destruct (output_name file t) as [|c s]; [reflexivity|].
      simpl in *. apply orb_false_iff in Hs as [Hc _].
      now rewrite N.eqb_sym.
  - intros E. rewrite E in Hlen. lia.
Qed.

Lemma reports_of_errors (errors : list (Path * exn)) :
  reports (map report errors) = map report errors /\
  prompts (map report errors) = [].
Proof.
  induction errors as [|fe errors [IH1 IH2]]; simpl; [auto|].
  unfold reports, prompts in *. simpl. rewrite IH1, IH2. auto.
Qed.

Lemma prompts_of_writes (evs : list event) : writes evs = evs -> prompts evs = [].
Proof.
  intros H.
  assert (Hall : prompts (writes evs) = []).
  { unfold writes, prompts. clear H.
    induction evs as [|[|p d|n e] evs IH]; simpl; auto. }
  now rewrite H in Hall.
Qed.


(** The description the loop leaves renders in the text column when the
    names of the files hold no separator. *)
Lemma loop_description_renders (files : list Path) (description : str) :
  Forall (fun f => mem slash (name f) = false) files ->
  description = processing_files \/
  (exists f, In f files /\
             (description = done_with f \/ description = failed_with f)) ->
  markup_error (text_column description) = None.
Proof.
  intros Hnames [->|[f [Hin Hd]]]; [apply processing_files_renders|].
  rewrite Forall_forall in Hnames. specialize (Hnames f Hin).
  destruct Hd as [->| ->]; apply text_column_renders; auto; discriminate.
Qed.


(** How a run ends, and where the prompt is in its trace. *)
Lemma process_shape (files : list Path) (t : str) (output_dir : option Path)
      (dry_run yes : bool) (w : world) :
  exists r w' evs,
    process files t output_dir dry_run yes w = (r, w') /\
    trace w' = trace w ++ evs /\
    prompts evs = (if must_confirm files dry_run yes then [Asked] else []) /\
    (r = Ok tt \/ r = Raise (Exit 0) \/ r = Raise (Exit 1) \/
     (r = Raise (Exit 130) /\ must_confirm files dry_run yes = true /\
      exists rest, answers w = false :: rest) \/
     (r = Raise EOFError /\ must_confirm files dry_run yes = true /\
      answers w = []) \/
     exists m, r = Raise (MarkupError m)).
Proof.
  assert (Hconfirmed : forall w1 pre,
             confirmed files yes w = Some w1 ->
             trace w1 = trace w ++ pre ->
             exists r w' evs,
               process files t output_dir false yes w = (r, w') /\
               trace w' = trace w ++ evs /\
               prompts evs = prompts pre /\
               (r = Ok tt \/ r = Raise (Exit 1) \/ exists m, r = Raise (MarkupError m))).
  { intros w1 pre Hc Hpre.
    destruct (@process_confirmed_account files t output_dir yes w w1 Hc)
      as [errors [d [w2 [ws [shown [r [_ [_ [Ht [Hw [_ [_ [Hrun [_ [Hr _]]]]]]]]]]]]]]].
    exists r, (World (root w2) (answers w2) (trace w2 ++ map report shown)),
           (pre ++ ws ++ map report shown).
    split; [exact Hrun|]. cbn [trace].
    split; [now rewrite Ht, Hpre, <- !app_assoc|]. split.
    - destruct (reports_of_errors shown) as [_ Hp].
      unfold prompts in *. rewrite !filter_app, Hp.
      fold (prompts ws). rewrite (prompts_of_writes Hw), !app_nil_r. reflexivity.
    - destruct Hr as [Hm|[[_ ->]|[_ [_ ->]]]]; auto. }
  unfold must_confirm. destruct dry_run.
  - exists (match first_error style_normalize meta_error
                              (map (fun file => would_process file t) files) with
            | Some m => Raise (MarkupError m)
            | None => Raise (Exit 0)
            end), w, [].
    rewrite process_dry_run, !andb_false_r, app_nil_r.
    split; [reflexivity|]. split; [reflexivity|]. split; [reflexivity|].
    destruct (first_error _ _ _) as [m|]; [|auto].
    do 5 right. now exists m.
  - rewrite andb_true_r. destruct ((1 <? length files) && negb yes) eqn:Eprompt.
    + assert (Hstart : forall k : bool -> M unit,
                 (console_print (about_to_process (length files)) ;;;
                  go <- confirm_ask ;; k go) w
                 = match answers w with
                   | a :: rest => k a (World (root w) rest (trace w ++ [Asked]))
                   | [] => (Raise EOFError,
                            World (root w) (answers w) (trace w ++ [Asked]))
                   end).
      { intros k. unfold bind at 1. rewrite console_print_run.
        unfold Cli.markup_error at 1. rewrite about_to_process_renders.
        unfold bind, confirm_ask. destruct (answers w); reflexivity. }
      destruct (answers w) as [|[|] rest] eqn:Eans.
      * exists (Raise EOFError), (World (root w) [] (trace w ++ [Asked])), [Asked].
        unfold Cli.process. rewrite andb_true_r, Eprompt.
        unfold bind at 1. rewrite Hstart.
        split; [reflexivity|]. split; [reflexivity|]. split; [reflexivity|].
        do 4 right. left. auto.
      * destruct (Hconfirmed (World (root w) rest (trace w ++ [Asked])) [Asked])
          as [r [w' [evs [Hrun [Ht [Hp Hr]]]]]].
        -- unfold confirmed. now rewrite Eprompt, Eans.
        -- reflexivity.
        -- exists r, w', evs. split; [exact Hrun|]. split; [exact Ht|].
           split; [exact Hp|]. destruct Hr as [->|[->|Hm]]; auto.
           do 5 right. exact Hm.
      * exists (Raise (Exit 130)), (World (root w) rest (trace w ++ [Asked])), [Asked].
        unfold Cli.process. rewrite andb_true_r, Eprompt.
        unfold bind at 1. rewrite Hstart. cbn [negb].
        unfold bind at 1. rewrite console_print_run.
        unfold Cli.markup_error at 1. rewrite aborted_by_user_renders.
        split; [reflexivity|]. split; [reflexivity|]. split; [reflexivity|].
        do 3 right. left. split; [reflexivity|]. split; [reflexivity|].
        now exists rest.
    + destruct (Hconfirmed w []) as [r [w' [evs [Hrun [Ht [Hp Hr]]]]]].
      * unfold confirmed. now rewrite Eprompt.
      * now rewrite app_nil_r.
      * exists r, w', evs. split; [exact Hrun|]. split; [exact Ht|].
        split; [exact Hp|]. destruct Hr as [->|[->|Hm]]; auto.
        do 5 right. exact Hm.
Qed.


(** X9: [Confirm.ask] is called exactly when there are two or more files
    and neither [--yes] nor [--dry-run] is set, and then once: the command
    never asks again. *)
Theorem prompt_shown_exactly_when_needed (files : list Path) (t : str)
        (output_dir : option Path) (dry_run yes : bool) (w : world) :
  exists evs,
    trace (snd (process files t output_dir dry_run yes w)) = trace w ++ evs /\
    prompts evs =
    (if (1 <? length files) && negb yes && negb dry_run then [Asked] else []).
Proof.
  destruct (process_shape files t output_dir dry_run yes w)
    as [r [w' [evs [Hrun [Ht [Hp _]]]]]].
  exists evs. rewrite Hrun. split; [exact Ht | exact Hp].
Qed.

(** X10: answering yes at the prompt is the same as passing [--yes]: the run
    then is the run with [--yes] from the world in which the prompt was
    shown and the reply consumed. *)
Theorem confirming_is_yes (files : list Path) (t : str)
        (output_dir : option Path) (w : world) (rest : list bool) :
  2 <= length files ->
  answers w = true :: rest ->
  process files t output_dir false false w =
  process files t output_dir false true
          (World (root w) rest (trace w ++ [Asked])).
Proof.
  intros Hlen Hans.
  set (w1 := World (root w) rest (trace w ++ [Asked])).
  assert (H1 : confirmed files false w = Some w1).
  { unfold confirmed.
    replace (1 <? length files) with true by (symmetry; apply Nat.ltb_lt; lia).
    simpl. now rewrite Hans. }
  assert (H2 : confirmed files true w1 = Some w1).
  { unfold confirmed. now rewrite andb_false_r. }
  rewrite process_confirmed with (w1 := w1) by exact H1.
  rewrite process_confirmed with (w := w1) (w1 := w1) by exact H2.
  reflexivity.
Qed.


(** The texts of a list all render exactly when none of them is the first
    not to. *)
Lemma first_error_none (texts : list str) :
  Forall renders texts -> first_error style_normalize meta_error texts = None.
Proof.
  induction 1 as [|text texts Ht _ IH]; simpl; [reflexivity|].
  unfold Cli.renders in Ht. fold (markup_error text). now rewrite Ht.
Qed.

Lemma first_error_some (texts : list str) (m : str) :
  first_error style_normalize meta_error texts = Some m ->
  exists text, In text texts /\ markup_error text = Some m.
Proof.
  induction texts as [|text texts IH]; simpl; [discriminate|].
  fold (markup_error text).
  destruct (markup_error text) as [m'|] eqn:E.
  - intros H; injection H as <-. exists text. auto.
  - intros H. destruct (IH H) as [text' [Hin Hm]]. exists text'. auto.
Qed.

Lemma would_process_slash_free (file : Path) (t : str) :
  mem slash (name file) = false -> mem slash t = false ->
  renders (would_process file t).
Proof.
  intros Hn Ht. apply render_slash_free. unfold would_process.
  rewrite !mem_app, Hn, Ht. reflexivity.
Qed.


(** ** The [list] command *)

Variable strftime : Z -> str.

Local Abbreviation list_command :=
  (list_command fnmatch name_too_long path_str repr fromtimestamp_error
                style_normalize meta_error strftime).
Local Abbreviation row_of := (row_of strftime).
Local Abbreviation print := (print style_normalize meta_error).
Local Abbreviation print_table := (print_table style_normalize meta_error).
Local Abbreviation handle := (handle path_str repr style_normalize meta_error).
Local Abbreviation listing_debug := (listing_debug path_str).
Local Abbreviation error_line := (error_line path_str repr).
Local Abbreviation unexpected_line := (unexpected_line path_str repr).
Local Abbreviation table_renders := (table_renders style_normalize meta_error).

(** The record of [logger.debug], emitted with [--verbose]. *)
Local Abbreviation debug_record :=
  (fun (verbose : bool) (directory : Path) (pattern : str) =>
     if verbose then [Log (lit "DEBUG") (listing_debug directory pattern)] else []).

Lemma fold_left_add (l : list N) (a : N) :
  fold_left N.add l a = (a + fold_left N.add l 0)%N.
Proof.
  revert a; induction l as [|x l IH]; intros a; simpl; [lia|].
  rewrite (IH (a + x)%N), (IH x). lia.
Qed.

Lemma total_size_cons (e : DirectoryEntry) (l : list DirectoryEntry) :
  total_size (e :: l) = (entry_size e + total_size l)%N.
Proof. unfold total_size. simpl. now rewrite fold_left_add. Qed.

Lemma print_run (markup : str) (shown : list output) :
  renders markup -> print markup shown = (Ok tt, shown ++ [Print markup]).
Proof. unfold Cli.print, Cli.renders. now intros ->. Qed.

Lemma print_table_run (title caption : str) (rows : list (str * str * str * str))
      (shown : list output) :
  table_renders title caption rows ->
  print_table title caption rows shown
  = (Ok tt, shown ++ [PrintTable title caption rows]).
Proof. unfold Cli.print_table, Cli.table_renders. now intros ->. Qed.

Lemma stdout_app (a b : list output) : stdout (a ++ b) = stdout a ++ stdout b.
Proof. unfold stdout. apply flat_map_app. Qed.

(** A [console.print] adds nothing to the standard output, whether it
    renders or not. *)
Lemma print_shape (markup : str) (shown : list output) :
  (fst (print markup shown) = Ok tt \/
   exists m, fst (print markup shown) = Raise (MarkupError m)) /\
  stdout (snd (print markup shown)) = stdout shown.
Proof.
  unfold Cli.print. destruct (Cli.markup_error _ _ markup) as [m|]; simpl.
  - split; [right; now exists m | reflexivity].
  - split; [now left|]. rewrite stdout_app. simpl. apply app_nil_r.
Qed.

Lemma print_table_shape (title caption : str) (rows : list (str * str * str * str))
      (shown : list output) :
  (fst (print_table title caption rows shown) = Ok tt \/
   exists m, fst (print_table title caption rows shown) = Raise (MarkupError m)) /\
  stdout (snd (print_table title caption rows shown)) = stdout shown.
Proof.
  unfold Cli.print_table. destruct (first_error _ _ _) as [m|]; simpl.
  - split; [right; now exists m | reflexivity].
  - split; [now left|]. rewrite stdout_app. simpl. apply app_nil_r.
Qed.

(** The handlers end with [typer.Exit(1)] or with the [MarkupError] of a
    line of theirs, and write nothing to the standard output. *)
Lemma handle_shape (e : exn) (shown : list output) :
  (fst (handle e shown) = Raise (Exit 1) \/
   exists m, fst (handle e shown) = Raise (MarkupError m)) /\
  stdout (snd (handle e shown)) = stdout shown.
Proof.
  unfold Cli.handle. destruct (is_file_not_found e).
  - destruct (print_shape (error_line e) shown) as [Hr Hs].
    destruct (print (error_line e) shown) as [[[]|e1] shown1]; simpl in *.
    + destruct (print_shape tip_line shown1) as [Hr' Hs'].
      destruct (print tip_line shown1) as [[[]|e2] shown2]; simpl in *.
      * split; [now left | congruence].
      * split; [right | congruence].
        destruct Hr' as [H|[m H]]; [discriminate | now exists m].
    + split; [right | exact Hs].
      destruct Hr as [H|[m H]]; [discriminate | now exists m].
  - destruct (print_shape (unexpected_line e) shown) as [Hr Hs].
    destruct (print (unexpected_line e) shown) as [[[]|e1] shown1]; simpl in *.
    + split; [now left|]. rewrite stdout_app, Hs. simpl. apply app_nil_r.
    + split; [right | exact Hs].
      destruct Hr as [H|[m H]]; [discriminate | now exists m].
Qed.

(** The command on a listing that returned, and on one that raised. *)
Lemma list_command_listed (directory : Path) (pattern : str)
      (json_output verbose : bool) (w : world) (items : list DirectoryEntry) :
  list_items_core directory pattern w = (Ok items, w) ->
  list_command directory pattern json_output verbose w =
  let shown := debug_record verbose directory pattern in
  let tried :=
    if json_output then
      (Ok tt, shown ++ [Echo (dumps (JArray (map json_of items)))])
    else
      match print_table (table_title (root w) directory)
                        (table_caption (length items) pattern)
                        (map row_of items) shown with
      | (Ok _, shown1) =>
          if verbose then print (total_line items) shown1 else (Ok tt, shown1)
      | failed => failed
      end in
  match tried with
  | (Ok _, shown1) => (Ok tt, shown1, w)
  | (Raise e, shown1) => (fst (handle e shown1), snd (handle e shown1), w)
  end.
Proof. intros H. unfold Cli.list_command. rewrite H. reflexivity. Qed.

Lemma list_command_raised (directory : Path) (pattern : str)
      (json_output verbose : bool) (w : world) (e : exn) :
  list_items_core directory pattern w = (Raise e, w) ->
  list_command directory pattern json_output verbose w =
  (fst (handle e (debug_record verbose directory pattern)),
   snd (handle e (debug_record verbose directory pattern)), w).
Proof. intros H. unfold Cli.list_command. rewrite H. reflexivity. Qed.

Lemma list_items_core_cases (directory : Path) (pattern : str) (w : world) :
  (exists items, list_items_core directory pattern w = (Ok items, w)) \/
  (exists e, list_items_core directory pattern w = (Raise e, w)).
Proof.
  pose proof (list_items_core_state directory pattern w) as Hs.
  destruct (list_items_core directory pattern w) as [[items|e] w1];
    simpl in Hs; subst w1; [left; now exists items | right; now exists e].
Qed.

Lemma debug_record_stdout (verbose : bool) (directory : Path) (pattern : str) :
  stdout (debug_record verbose directory pattern) = [].
Proof. destruct verbose; reflexivity. Qed.

Lemma list_items_core_missing (directory : Path) (pattern : str) (w : world) :
  exists_ (root w) directory = false ->
  Forall (fun c => name_too_long c = false) directory ->
  list_items_core directory pattern w
  = (Raise (FileNotFoundError (lit "Directory not found: " ++ path_str directory)), w).
Proof.
  intros H Hshort. unfold exists_ in H.
  destruct (resolve (root w) directory) as [n|] eqn:E; [discriminate|].
  unfold Cli.list_items_core, bind, lift, Cli.path_exists, stat_or.
  rewrite E, (stat_errno_ignored (root w) Hshort). reflexivity.
Qed.


(** X13: with [--json] and a listing that returns, the command returns and
    writes one text to the standard output: the array of the objects of
    the items in the order of the listing, which is plain ASCII whatever
    the names are.  [--verbose] leaves the standard output as it is: all it
    adds is the debug record of [logging], which goes before the text and
    to the standard error.  Without [--json] nothing goes to the standard
    output. *)
Theorem json_goes_to_stdout (directory : Path) (pattern : str) (verbose : bool)
        (w : world) (items : list DirectoryEntry) :
  list_items_core directory pattern w = (Ok items, w) ->
  let text := dumps (JArray (map json_of items)) in
  list_command directory pattern true verbose w
  = (Ok tt, debug_record verbose directory pattern ++ [Echo text], w) /\
  Forall plain_ascii text /\
  stdout (snd (fst (list_command directory pattern true verbose w))) = [text] /\
  stdout (snd (fst (list_command directory pattern true (negb verbose) w)))
  = stdout (snd (fst (list_command directory pattern true verbose w))) /\
  stdout (snd (fst (list_command directory pattern false verbose w))) = [].
Proof.
  intros H text.
  assert (Hjson : forall v,
             list_command directory pattern true v w
             = (Ok tt, debug_record v directory pattern ++ [Echo text], w)).
  { intros v. now rewrite (@list_command_listed directory pattern true v w items H). }
  assert (Hout : forall v,
             stdout (snd (fst (list_command directory pattern true v w))) = [text]).
  { intros v. rewrite Hjson. cbn [fst snd].
    now rewrite stdout_app, debug_record_stdout. }
  split; [apply Hjson|]. split; [apply dumps_is_ascii|].
  split; [apply Hout|]. split; [now rewrite !Hout|].
  rewrite (@list_command_listed directory pattern false verbose w items H). cbv zeta.
  destruct (print_table_shape (table_title (root w) directory)
              (table_caption (length items) pattern) (map row_of items)
              (debug_record verbose directory pattern)) as [_ Hs].
  rewrite debug_record_stdout in Hs.
  destruct (print_table _ _ _ _) as [[[]|e1] shown1]; simpl in Hs.
  - destruct verbose; [|exact Hs].
    destruct (print_shape (total_line items) shown1) as [_ Hp].
    destruct (print (total_line items) shown1) as [[[]|e2] shown2]; simpl in *.
    + congruence.
    + destruct (handle_shape e2 shown2) as [_ Hh]. congruence.
  - simpl. destruct (handle_shape e1 shown1) as [_ Hh]. congruence.
Qed.



End Properties.


(** * The properties on the sample file system *)

Local Abbreviation home_ p := [lit "home"; lit p].

(** The output name of the specification's example, and of names with
    several dots or none. *)
Example output_name_report :
  output_name [lit "docs"; lit "report.txt"] (lit "upper") = lit "report_upper.txt" /\
  output_name [lit "a.tar.gz"] (lit "lower") = lit "a.tar_lower.gz" /\
  output_name [lit ".bashrc"] (lit "upper") = lit ".bashrc_upper" /\
  output_path [lit "out"] [lit "docs"; lit "report.txt"] (lit "upper")
  = [lit "out"; lit "report_upper.txt"].
Proof. repeat split. Qed.

(** The listing of a directory that holds [b.txt], the directory [a] and
    [a.txt], in this scan order. *)
Example listing_of_three :
  exists items,
    Sample.list_items_core []  (lit "*")
      (World (Dir 4096 1 [ (lit "b.txt", File 2 3 (lit "bb"));
                           (lit "a", Dir 4096 4 [ (lit "c", File 9 9 []) ]);
                           (lit "a.txt", File 1 5 (lit "a")) ]) [] [])
    = (Ok items, World (Dir 4096 1 [ (lit "b.txt", File 2 3 (lit "bb"));
                           (lit "a", Dir 4096 4 [ (lit "c", File 9 9 []) ]);
                           (lit "a.txt", File 1 5 (lit "a")) ]) [] []) /\
    map (fun e => (entry_name e, entry_type e, entry_size e)) items
    = [(lit "a", lit "dir", 0%N); (lit "a.txt", lit "file", 1%N);
       (lit "b.txt", lit "file", 2%N)].
Proof. eexists; split; reflexivity. Qed.

Lemma transform_result_text_witness :
  resolve (root Sample.w0) (home_ "a.txt") = Some (File 7 15 (lit "Mixed 1")) /\
  exists r,
    Sample.process_file_core (home_ "a.txt") (lit "title") Sample.w0 = (Ok r, Sample.w0) /\
    result r = lit "Mixed 1".
Proof.
  split; [reflexivity|].
  destruct (@transform_result_text Sample.unchanged Sample.unchanged
              Sample.small_sigma Sample.name_too_long Sample.path_str (home_ "a.txt") (lit "title") Sample.w0
              7%N 15%Z (lit "Mixed 1") eq_refl)
    as [r [Hrun [_ [_ [_ Hid]]]]].
  exists r. split; [exact Hrun|].
  apply Hid; discriminate.
Defined.

Lemma transform_result_sizes_witness :
  Sample.process_file_core (home_ "a.txt") (lit "upper") Sample.w0
  = (Ok Sample.a_upper, Sample.w0) /\
  exists sz mt C,
    resolve (root Sample.w0) (home_ "a.txt") = Some (File sz mt C) /\
    result Sample.a_upper
    = transformed Sample.unchanged Sample.unchanged Sample.small_sigma (lit "upper") C /\
    original_size Sample.a_upper = length C /\
    processed_size Sample.a_upper = length (result Sample.a_upper) /\
    (processed_size Sample.a_upper = original_size Sample.a_upper <->
     length (transformed Sample.unchanged Sample.unchanged Sample.small_sigma
                         (lit "upper") C) = length C).
Proof.
  split; [reflexivity|].
  apply (@transform_result_sizes Sample.unchanged Sample.unchanged
           Sample.small_sigma Sample.name_too_long Sample.path_str (home_ "a.txt") (lit "upper") Sample.w0 Sample.w0).
  reflexivity.
Defined.

Lemma case_transform_sizes_witness :
  exists r,
    Sample.process_file_core (home_ "a.txt") (lit "lower") Sample.w0 = (Ok r, Sample.w0) /\
    original_size r = 7 /\
    processed_size r = original_size r.
Proof.
  destruct (@case_transform_sizes Sample.unchanged Sample.unchanged
              Sample.small_sigma Sample.name_too_long Sample.path_str
              (home_ "a.txt") (lit "lower") Sample.w0
              7%N 15%Z (lit "Mixed 1") eq_refl)
    as [r [Hrun [Hsize [_ Hascii]]]].
  exists r. split; [exact Hrun|]. split; [exact Hsize|].
  apply Hascii; [right; reflexivity | repeat constructor].
Defined.

(** C1, as stated, fails: the file [notes.md] holds the single character
    U+00DF (sharp s), whose uppercase is the two letters SS. *)
Lemma case_transform_changes_size :
  resolve (root Sample.w0) (home_ "notes.md") = Some (File 1 16 [223%N]) /\
  exists r,
    Sample.process_file_core (home_ "notes.md") (lit "upper") Sample.w0
    = (Ok r, Sample.w0) /\
    result r = lit "SS" /\
    original_size r = 1 /\
    processed_size r = 2.
Proof.
  split; [reflexivity|]. eexists. split; [reflexivity|]. repeat split.
Qed.

Lemma missing_path_not_found_witness :
  exists_ (root Sample.w0) [lit "nope"] = false /\
  Sample.process_file_core [lit "nope"] (lit "upper") Sample.w0
  = (Raise (FileNotFoundError (lit "File not found: /nope")), Sample.w0) /\
  Sample.list_items_core [lit "nope"] (lit "*") Sample.w0
  = (Raise (FileNotFoundError (lit "Directory not found: /nope")), Sample.w0).
Proof.
  split; [reflexivity|].
  destruct (@missing_path_not_found Sample.unchanged Sample.unchanged
              Sample.small_sigma Sample.fnmatch Sample.name_too_long Sample.path_str
              Sample.fromtimestamp_error [lit "nope"] (lit "upper") (lit "*")
              Sample.w0 eq_refl) as [_ [_ [Hshort _]]].
  apply Hshort. repeat constructor.
Defined.

(** C9, as stated, fails: the directory [/home] has no entry of the name
    of 256 characters, a name the file system takes for too long.
    [exists] raises the error of [stat] again, and both operations fail
    with an [OSError] that is no [FileNotFoundError]. *)
Lemma missing_path_too_long :
  exists_ (root Sample.w0) [lit "home"; Sample.long_name] = false /\
  Sample.process_file_core [lit "home"; Sample.long_name] (lit "upper") Sample.w0
  = (Raise (OSError ENAMETOOLONG [lit "home"; Sample.long_name]), Sample.w0) /\
  Sample.list_items_core [lit "home"; Sample.long_name] (lit "*") Sample.w0
  = (Raise (OSError ENAMETOOLONG [lit "home"; Sample.long_name]), Sample.w0) /\
  is_file_not_found (OSError ENAMETOOLONG [lit "home"; Sample.long_name]) = false.
Proof. repeat split. Qed.

Lemma listing_sorted_witness :
  exists items,
    Sample.list_items_core [lit "home"] (lit "*") Sample.w0 = (Ok items, Sample.w0) /\
    map entry_name items = [lit "a"; lit "a.txt"; lit "b.txt"; lit "notes.md"] /\
    StronglySorted by_kind_then_name items.
Proof.
  eexists. split; [reflexivity|]. split; [reflexivity|].
  eapply (@listing_sorted Sample.fnmatch Sample.name_too_long Sample.path_str
            Sample.fromtimestamp_error [lit "home"] (lit "*") Sample.w0 Sample.w0).
  reflexivity.
Defined.

Lemma listing_kinds_witness :
  exists items,
    Sample.list_items_core [lit "home"] (lit "*") Sample.w0 = (Ok items, Sample.w0) /\
    Forall (fun e => (entry_type e = lit "file" \/ entry_type e = lit "dir") /\
                     (entry_type e = lit "dir" -> entry_size e = 0%N)) items.
Proof.
  eexists. split; [reflexivity|].
  eapply (@listing_kinds Sample.fnmatch Sample.name_too_long Sample.path_str
            Sample.fromtimestamp_error [lit "home"] (lit "*") Sample.w0 Sample.w0).
  reflexivity.
Defined.

(** C4, as stated, fails: the subdirectory [a] of the sample directory is
    listed with the kind ["dir"], which is neither ["file"] nor
    ["directory"]. *)
Lemma listing_kind_is_dir :
  exists items e,
    Sample.list_items_core [lit "home"] (lit "*") Sample.w0 = (Ok items, Sample.w0) /\
    In e items /\
    entry_name e = lit "a" /\
    entry_type e = lit "dir" /\
    eqb (entry_type e) (lit "directory") = false /\
    eqb (entry_type e) (lit "file") = false.
Proof.
  eexists _, _. split; [reflexivity|]. split; [left; reflexivity|].
  repeat split.
Qed.

Lemma single_component_listing_witness :
  exists items,
    Sample.list_items_core [lit "home"] (lit "*.txt") Sample.w0 = (Ok items, Sample.w0) /\
    map entry_name items = [lit "a.txt"; lit "b.txt"] /\
    Forall (fun e => In (entry_name e) (child_names Sample.disk [lit "home"])) items.
Proof.
  eexists. split; [reflexivity|]. split; [reflexivity|].
  eapply (@single_component_listing Sample.fnmatch Sample.name_too_long Sample.path_str
            Sample.fromtimestamp_error [lit "home"] (lit "*.txt")
            (lit "*.txt") Sample.w0 Sample.w0).
  - reflexivity.
  - discriminate.
  - discriminate.
  - reflexivity.
Defined.

(** C5, as stated, fails: with the pattern [*/*] the scan yields the two
    entries of the subdirectory [a]; [x.txt] and [deep] are listed although
    the directory itself has no entry of these names. *)
Lemma pattern_reaches_below :
  Sample.glob [lit "home"] (lit "*/*") Sample.w0
  = (Ok [[lit "home"; lit "a"; lit "x.txt"]; [lit "home"; lit "a"; lit "deep"]],
     Sample.w0) /\
  existsb (eqb (lit "x.txt")) (child_names Sample.disk [lit "home"]) = false /\
  existsb (eqb (lit "deep")) (child_names Sample.disk [lit "home"]) = false /\
  exists items,
    Sample.list_items_core [lit "home"] (lit "*/*") Sample.w0 = (Ok items, Sample.w0) /\
    map (fun e => (entry_name e, entry_type e, entry_size e)) items
    = [(lit "deep", lit "dir", 0%N); (lit "x.txt", lit "file", 3%N)].
Proof.
  repeat split; try reflexivity. eexists; split; reflexivity.
Qed.


(** C7: a dry run with the transform [[/x]] and the one file [a.txt] does
    not end with status 0: the line of the file is markup with a closing
    tag that closes nothing, [console.print] raises [MarkupError], and the
    status of the command is 1.  Nothing is written and nothing is
    asked. *)
Theorem dry_run_markup_error :
  Sample.process [home_ "a.txt"] (lit "[/x]") None true false Sample.w0
  = (Raise (MarkupError
              (lit "closing tag '[/x]' at position 25 doesn't match any open tag")),
     Sample.w0) /\
  exit_status (fst (Sample.process [home_ "a.txt"] (lit "[/x]") None true false
                                   Sample.w0)) = 1%Z.
Proof. split; reflexivity. Qed.

Lemma declined_confirmation_witness :
  Sample.process [home_ "a.txt"; home_ "b.txt"] (lit "upper") None false false
                 (World Sample.disk [false] [])
  = (Raise (Exit 130), World Sample.disk [] [Asked]) /\
  exists r w' evs,
    Sample.process [home_ "a.txt"] (lit "upper") None false false
                   (World Sample.disk [false] []) = (r, w') /\
    answers w' = [false] /\
    trace w' = evs /\
    ~ In Asked evs.
Proof.
  destruct (@declined_confirmation Sample.unchanged Sample.unchanged
              Sample.small_sigma Sample.written_stat Sample.cwd Sample.name_too_long
                 Sample.path_str Sample.repr Sample.style_normalize Sample.meta_error
              [home_ "a.txt"; home_ "b.txt"] (lit "upper") None
              (World Sample.disk [false] [])) as [Hdeclined _].
  destruct (@declined_confirmation Sample.unchanged Sample.unchanged
              Sample.small_sigma Sample.written_stat Sample.cwd Sample.name_too_long
                 Sample.path_str Sample.repr Sample.style_normalize Sample.meta_error
              [home_ "a.txt"] (lit "upper") None
              (World Sample.disk [false] [])) as [_ Hsingle].
  split.
  - apply (Hdeclined (le_n 2) [] eq_refl).
  - exact (Hsingle (le_n 1)).
Defined.

(** * The further properties on the sample file system *)

Lemma listing_is_permutation_witness :
  exists paths,
    Sample.glob [lit "home"] (lit "*.txt") Sample.w0 = (Ok paths, Sample.w0) /\
    length [ {| entry_name := lit "a.txt"; entry_type := lit "file";
                entry_size := 7; entry_modified := 15 |};
             {| entry_name := lit "b.txt"; entry_type := lit "file";
                entry_size := 5; entry_modified := 11 |} ] = length paths /\
    Permutation [lit "a.txt"; lit "b.txt"] (map name paths).
Proof.
  apply (@listing_is_permutation Sample.fnmatch Sample.name_too_long Sample.path_str
           Sample.fromtimestamp_error [lit "home"] (lit "*.txt")
           Sample.w0 Sample.w0).
  reflexivity.
Defined.


Lemma listing_of_a_file_is_empty_witness :
  Sample.list_items_core (home_ "a.txt") (lit "*") Sample.w0 = (Ok [], Sample.w0) /\
  forall pattern items w',
    Sample.list_items_core (home_ "a.txt") pattern Sample.w0 = (Ok items, w') ->
    items = [].
Proof.
  apply (@listing_of_a_file_is_empty Sample.fnmatch Sample.name_too_long Sample.path_str
           Sample.fromtimestamp_error (home_ "a.txt") Sample.w0
           7%N 15%Z (lit "Mixed 1")).
  reflexivity.
Defined.

Lemma output_file_in_output_dir_witness :
  output_path [lit "out"] [lit "docs"; lit "report.txt"] (lit "upper")
  = [lit "out"; lit "report_upper.txt"] /\
  length (output_name [lit "docs"; lit "report.txt"] (lit "upper")) = 16 /\
  output_name [lit "docs"; lit "report.txt"] (lit "upper") <> lit "report.txt".
Proof.
  apply (@output_file_in_output_dir [lit "out"] [lit "docs"; lit "report.txt"]
           (lit "upper")); reflexivity.
Defined.


Lemma confirming_is_yes_witness :
  Sample.process [home_ "a.txt"; home_ "b.txt"] (lit "upper") None false false
                 (World Sample.disk [true] [])
  = Sample.process [home_ "a.txt"; home_ "b.txt"] (lit "upper") None false true
                   (World Sample.disk [] [Asked]).
Proof.
  apply (@confirming_is_yes Sample.unchanged Sample.unchanged
           Sample.small_sigma Sample.written_stat Sample.cwd Sample.name_too_long
                 Sample.path_str Sample.repr Sample.style_normalize Sample.meta_error
           [home_ "a.txt"; home_ "b.txt"] (lit "upper") None
           (World Sample.disk [true] []) []).
  - simpl. lia.
  - reflexivity.
Defined.


Lemma json_goes_to_stdout_witness :
  exists text,
    Sample.list_command [lit "home"] (lit "*.txt") true true Sample.w0
    = (Ok tt,
       [Log (lit "DEBUG") (lit "Listing /home with pattern=*.txt"); Echo text],
       Sample.w0) /\
    Forall plain_ascii text.
Proof.
  edestruct (@json_goes_to_stdout Sample.fnmatch Sample.name_too_long Sample.path_str
               Sample.repr Sample.fromtimestamp_error Sample.style_normalize
               Sample.meta_error Sample.strftime [lit "home"]
               (lit "*.txt") true Sample.w0) as [Hrun [Hascii _]].
  - reflexivity.
  - eexists. split; [exact Hrun | exact Hascii].
Defined.



Lemma transform_idempotent_on_ascii_witness :
  transformed Sample.unchanged Sample.unchanged Sample.small_sigma (lit "upper")
              (lit "MIXED 1") = lit "MIXED 1" /\
  transformed Sample.unchanged Sample.unchanged Sample.small_sigma (lit "upper")
              (lit "Mixed 1") = lit "MIXED 1".
Proof.
  split; [|reflexivity].
  apply (@transform_idempotent_on_ascii Sample.unchanged Sample.unchanged
           Sample.small_sigma (lit "upper") (lit "Mixed 1")).
  repeat constructor.
Defined.
